(** * ClassMap: the attribute-resolution table of atom (src/class_map.cpp)

    A shallow embedding of the open-addressing table [ClassMap] and of the
    functions [ClassMap_LookupMember], [insert_member], [ClassMap_new],
    [ClassMap_clear] and [ClassMap_traverse], followed by the properties
    stated about them.

    Conventions.
    - [uint32_t] values are integers of [Z]; every operation that can leave
      the range [0, 2^32) is followed by its wrap-around [u32].
    - The entry array is a [list ClassMapEntry]; the pointer [base + i] is
      the list position [i].  Reading outside the array is undefined in
      C++ and is the outcome [Fault] here.
    - The two [while( true )] loops take a step budget; [Diverge] is the
      outcome of a loop that has not left after that many iterations.
    - [Py_INCREF], [Py_DECREF] are recorded, in program order, as a log of
      [rc_event]s returned next to the value.
    - [size_t] is taken wide enough for [sizeof( ClassMapEntry ) *
      allocated], as it is where pointers have 64 bits; whether the two
      allocations succeed is an argument of [ClassMap_new]. *)

From Stdlib Require Import ZArith Lia Ascii String List.
From stdpp Require Import base tactics option list.

Local Open Scope Z_scope.

(** ** Machine integers *)

Module U32.

Definition width : Z := 32.
Definition modulus : Z := 2 ^ width.

(** Wrap-around of an unsigned 32-bit result. *)
Definition u32 (x : Z) : Z := x mod modulus.

Definition add (a b : Z) : Z := u32 (a + b).
Definition sub (a b : Z) : Z := u32 (a - b).
Definition mul (a b : Z) : Z := u32 (a * b).
Definition shl (a n : Z) : Z := u32 (Z.shiftl a n).
Definition shr (a n : Z) : Z := Z.shiftr a n.

Definition in_range (x : Z) : Prop := 0 <= x < modulus.

End U32.

Import U32.

(** ** Python objects seen by the table *)

(** A [PyStringObject] is modelled by its contents. *)
Definition PyStringObject : Type := string.

(** A [Member] is opaque to the table: only its address is known. *)
Inductive Member : Type := MemberAt (addr : Z).

(** The objects a dict handed to [ClassMap_new] can hold: strings,
    members, and objects of any other type (named by [tp_name]). *)
Inductive PyObject : Type :=
| PyStr (s : PyStringObject)
| PyMember (m : Member)
| PyOther (tp_name : string) (addr : Z).

(** The argument [members] of [ClassMap_new]: an exact dict, given by its
    items in the order [PyDict_Next] yields them, or some other object. *)
Inductive PyArg : Type :=
| ArgDict (items : list (PyObject * PyObject))
| ArgObject (o : PyObject).

Definition PyString_Check (o : PyObject) : option PyStringObject :=
  match o with PyStr s => Some s | _ => None end.

(** Modelled from the spec: [Member_Check] (member.h) is not part of the
    sources at hand.  The spec has "each value satisfies the descriptor
    capability"; here it holds of the objects that are members. *)
Definition Member_Check (o : PyObject) : option Member :=
  match o with PyMember m => Some m | _ => None end.

(** Modelled from the spec: [utils::pystr_equal] (utils.h) is not part of
    the sources at hand.  The spec gives "fast path: identity; fallback:
    content equality"; on strings modelled by their contents both paths are
    equality of contents. *)
Definition pystr_equal (a b : PyStringObject) : bool := String.eqb a b.

(** Modelled from the spec: [utils::next_power_of_2] (utils.h) is not part
    of the sources at hand.  The spec names it [next_power_of_two] and uses
    [next_pow2(4) = 4]: the least power of two that is not below the
    argument, as a [uint32_t]. *)
Definition next_power_of_2 (n : Z) : Z := u32 (2 ^ Z.log2_up n).

(** ** Outcomes and effects *)

Inductive outcome (A : Type) : Type :=
| Done (a : A)
| Diverge
| Fault.

Arguments Done {A} a.
Arguments Diverge {A}.
Arguments Fault {A}.

Inductive rc_event : Type :=
| Incref (o : PyObject)
| Decref (o : PyObject).

(** Computations that return a value and a log of reference-count events. *)
Definition M (A : Type) : Type := outcome (A * list rc_event).

Definition ret {A} (a : A) : M A := Done (a, []).

Definition bind {A B} (m : M A) (f : A -> M B) : M B :=
  match m with
  | Done (a, l1) =>
      match f a with
      | Done (b, l2) => Done (b, l1 ++ l2)
      | Diverge => Diverge
      | Fault => Fault
      end
  | Diverge => Diverge
  | Fault => Fault
  end.

Definition tell (e : rc_event) : M unit := Done (tt, [e]).

Notation "'let*' x ':=' m 'in' k" := (bind m (fun x => k))
  (at level 10, x pattern, m at level 100, k at level 200).
Notation "'run' m 'in' k" := (bind m (fun _ => k))
  (at level 10, m at level 100, k at level 200).

Definition Py_INCREF (o : PyObject) : M unit := tell (Incref o).
Definition Py_DECREF (o : PyObject) : M unit := tell (Decref o).

(** ** The table

    [struct ClassMap] (class_map.h) is not part of the sources at hand; its
    fields are the three the functions use. *)

Record ClassMapEntry : Type := mkEntry {
  name : option PyStringObject;
  member : option Member;
  index : Z
}.

Record ClassMap : Type := mkClassMap {
  entries : list ClassMapEntry;
  allocated : Z;
  member_count : Z
}.

(** A slot as [memset( entrymem, 0, memsize )] leaves it. *)
Definition zero_entry : ClassMapEntry :=
  {| name := None; member := None; index := 0 |}.

(** ** The probe recurrence (class_map.cpp lines 53-54 and 81-82) *)

(** [bucket = ( ( bucket << 2 ) + bucket + hash + 1 ) & mask] *)
Definition next_bucket (mask hash bucket : Z) : Z :=
  Z.land (add (add (add (shl bucket 2) bucket) hash) 1) mask.

(** [hash >>= 5] *)
Definition next_hash (hash : Z) : Z := shr hash 5.

(** One turn of the loop on the pair (hash, bucket). *)
Definition probe_step (mask : Z) (st : Z * Z) : Z * Z :=
  (next_hash (fst st), next_bucket mask (fst st) (snd st)).

(** The bucket examined by iteration [n] (counting from 0) and the value
    of [hash] at that moment. *)
Definition probe_state (mask hash : Z) (n : nat) : Z * Z :=
  Nat.iter n (probe_step mask) (hash, Z.land hash mask).

Definition probe_bucket (mask hash : Z) (n : nat) : Z :=
  snd (probe_state mask hash n).

Section WithHash.

(** [utils::pystr_hash] (utils.h) is not part of the sources at hand; any
    function of the string will do.  Its result is converted to
    [uint32_t]. *)
Variable pystr_hash : PyStringObject -> Z.

Definition hash32 (s : PyStringObject) : Z := u32 (pystr_hash s).

(** ** ClassMap_LookupMember (lines 31-56)

    [member] and [index] are the contents of the two output locations on
    entry; the result is their contents on return. *)

Fixpoint lookup_loop (fuel : nat) (base : list ClassMapEntry) (mask : Z)
    (nm : PyStringObject) (hash bucket : Z)
    (member_out : option Member) (index_out : Z)
  : outcome (option Member * Z) :=
  match fuel with
  | O => Diverge
  | S fuel' =>
      match base !! Z.to_nat bucket with
      | None => Fault
      | Some entry =>
          match name entry with
          | None => Done (member_out, index_out)
          | Some ename =>
              if pystr_equal nm ename
              then Done (member entry, index entry)
              else lookup_loop fuel' base mask nm (next_hash hash)
                     (next_bucket mask hash bucket) member_out index_out
          end
      end
  end.

Definition ClassMap_LookupMember (fuel : nat) (map : ClassMap)
    (nm : PyStringObject) (member_out : option Member) (index_out : Z)
  : outcome (option Member * Z) :=
  let mask := sub (allocated map) 1 in
  let hash := hash32 nm in
  let bucket := Z.land hash mask in
  lookup_loop fuel (entries map) mask nm hash bucket member_out index_out.

(** ** insert_member (lines 59-84) *)

Fixpoint insert_loop (fuel : nat) (map : ClassMap) (mask : Z)
    (nm : PyStringObject) (mb : Member) (hash bucket : Z) : M ClassMap :=
  match fuel with
  | O => Diverge
  | S fuel' =>
      match entries map !! Z.to_nat bucket with
      | None => Fault
      | Some entry =>
          match name entry with
          | None =>
              let entry' := {| name := Some nm; member := Some mb;
                               index := member_count map |} in
              let map' := {| entries := <[Z.to_nat bucket := entry']> (entries map);
                             allocated := allocated map;
                             member_count := add (member_count map) 1 |} in
              run Py_INCREF (PyStr nm) in
              run Py_INCREF (PyMember mb) in
              ret map'
          | Some _ =>
              insert_loop fuel' map mask nm mb (next_hash hash)
                (next_bucket mask hash bucket)
          end
      end
  end.

Definition insert_member (fuel : nat) (map : ClassMap)
    (nm : PyStringObject) (mb : Member) : M ClassMap :=
  let mask := sub (allocated map) 1 in
  let hash := hash32 nm in
  let bucket := Z.land hash mask in
  insert_loop fuel map mask nm mb hash bucket.

(** ** ClassMap_new (lines 87-137) *)

Inductive PyErr : Type :=
| ArgumentError
| TypeError (got : PyObject) (expected : string)
| NoMemory.

(** Modelled from the spec: [py_expected_type_fail] (pythonhelpers.h) is
    not part of the sources at hand.  The spec has the construction "fail
    with a type-mismatch error identifying the offending key or value and
    its expected capability". *)
Definition py_expected_type_fail (got : PyObject) (expected : string)
  : PyErr :=
  TypeError got expected.

Inductive PyResult : Type :=
| Returned (self : ClassMap)
| Raised (e : PyErr).

(** The object [PyType_GenericNew] returns: all fields zero. *)
Definition generic_new : ClassMap :=
  {| entries := []; allocated := 0; member_count := 0 |}.

(** [allocated = next_power_of_2( max( dsize, 3 ) * 4 / 3 )], on
    [uint32_t]. *)
Definition planned_capacity (dsize : Z) : Z :=
  let count := Z.max dsize 3 in
  next_power_of_2 (mul count 4 / 3).

(** The [while( PyDict_Next( ... ) )] loop.  It leaves with the table as it
    stands and the error raised, if any. *)
Fixpoint new_loop (fuel : nat) (map : ClassMap)
    (items : list (PyObject * PyObject)) : M (ClassMap * option PyErr) :=
  match items with
  | [] => ret (map, None)
  | (key, value) :: rest =>
      match PyString_Check key with
      | None => ret (map, Some (py_expected_type_fail key "str"))
      | Some nm =>
          match Member_Check value with
          | None => ret (map, Some (py_expected_type_fail value "Member"))
          | Some mb =>
              let* map' := insert_member fuel map nm mb in
              new_loop fuel map' rest
          end
      end
  end.

(** [Py_CLEAR( op )]: when [op] is set, reset it and release the object. *)
Definition Py_CLEAR {A} (as_object : A -> PyObject) (op : option A)
  : M (option A) :=
  match op with
  | Some o => run Py_DECREF (as_object o) in ret None
  | None => ret None
  end.

(** ** ClassMap_clear (lines 140-154) *)

Fixpoint clear_loop (todo : nat) (i : Z) (base : list ClassMapEntry)
  : M (list ClassMapEntry) :=
  match todo with
  | O => ret base
  | S todo' =>
      match base !! Z.to_nat i with
      | None => Fault
      | Some entry =>
          match name entry with
          | Some _ =>
              let* nm' := Py_CLEAR PyStr (name entry) in
              let* mb' := Py_CLEAR PyMember (member entry) in
              clear_loop todo' (add i 1)
                (<[Z.to_nat i := {| name := nm'; member := mb';
                                    index := index entry |}]> base)
          | None => clear_loop todo' (add i 1) base
          end
      end
  end.

Definition ClassMap_clear (self : ClassMap) : M ClassMap :=
  let* base' := clear_loop (Z.to_nat (allocated self)) 0 (entries self) in
  ret {| entries := base'; allocated := allocated self;
         member_count := member_count self |}.

(** ** ClassMap_dealloc (lines 175-182): the table is cleared, then the
    entry array and the object are given back. *)
Definition ClassMap_dealloc (self : ClassMap) : M unit :=
  let* _ := ClassMap_clear self in ret tt.

(** The object once lines 116-119 have given it its zeroed array. *)
Definition fresh_table (self : ClassMap) (allocated : Z) : ClassMap :=
  {| entries := replicate (Z.to_nat allocated) zero_entry;
     allocated := allocated;
     member_count := member_count self |}.

(** Modelled from the spec: [PyObjectPtr] (pythonhelpers.h) is not part of
    the sources at hand.  The spec has "no partial table is exposed to
    callers on failure (abort before or discard on validation failure)":
    [self_ptr], sole owner of the new object, drops its reference when
    [ClassMap_new] is left without [self_ptr.release()], and the object is
    deallocated. *)
Definition PyObjectPtr_drop (self : ClassMap) : M unit :=
  ClassMap_dealloc self.

Definition ClassMap_new (fuel : nat) (new_ok malloc_ok : bool)
    (args : option PyArg) : M PyResult :=
  match args with
  | None => ret (Raised ArgumentError)
  | Some (ArgObject o) => ret (Raised (py_expected_type_fail o "dict"))
  | Some (ArgDict items) =>
      if negb new_ok then ret (Raised NoMemory) else
      let self := generic_new in
      let dsize := u32 (Z.of_nat (length items)) in
      let allocated := planned_capacity dsize in
      if negb malloc_ok then
        run PyObjectPtr_drop self in ret (Raised NoMemory)
      else
      let map := fresh_table self allocated in
      let* r := new_loop fuel map items in
      match r with
      | (map', None) => ret (Returned map')
      | (map', Some e) => run PyObjectPtr_drop map' in ret (Raised e)
      end
  end.

End WithHash.

(** ** ClassMap_traverse (lines 157-172)

    The visitor is a function of the object and of its own state; it
    returns its verdict and its next state.  The result of the traversal
    is the value returned, the visitor's state and the objects handed to
    it, in order. *)

Section Traverse.

Context {VS : Type}.
Variable visit : PyObject -> VS -> Z * VS.

Definition visit_result : Type := Z * VS * list PyObject.

Definition seen (o : PyObject) (r : outcome visit_result)
  : outcome visit_result :=
  match r with
  | Done (v, s, l) => Done (v, s, o :: l)
  | Diverge => Diverge
  | Fault => Fault
  end.

(** [Py_VISIT( op )]: when [op] is set, call the visitor and return its
    verdict at once if it is not zero; [k] is the rest of the function. *)
Definition Py_VISIT (op : option PyObject) (s : VS)
    (k : VS -> outcome visit_result) : outcome visit_result :=
  match op with
  | None => k s
  | Some o =>
      let '(vret, s') := visit o s in
      if vret =? 0 then seen o (k s') else Done (vret, s', [o])
  end.

Fixpoint traverse_loop (todo : nat) (i : Z) (base : list ClassMapEntry)
    (s : VS) : outcome visit_result :=
  match todo with
  | O => Done (0, s, [])
  | S todo' =>
      match base !! Z.to_nat i with
      | None => Fault
      | Some entry =>
          match name entry with
          | Some _ =>
              Py_VISIT (PyStr <$> name entry) s (fun s1 =>
              Py_VISIT (PyMember <$> member entry) s1 (fun s2 =>
              traverse_loop todo' (add i 1) base s2))
          | None => traverse_loop todo' (add i 1) base s
          end
      end
  end.

Definition ClassMap_traverse (self : ClassMap) (s : VS)
  : outcome visit_result :=
  traverse_loop (Z.to_nat (allocated self)) 0 (entries self) s.

End Traverse.

(** ** ClassMap_sizeof (lines 185-191) *)
Definition ClassMap_sizeof (tp_basicsize entry_size : Z) (self : ClassMap)
  : Z :=
  tp_basicsize + entry_size * allocated self.

(** * Vocabulary of the statements *)

(** ** The planner in the words of the specification

    On unbounded integers: [next_power_of_two(ceil(max(n, 3) * 4 / 3))]. *)

Definition ceil_div (a b : Z) : Z := (a + b - 1) / b.

Definition next_power_of_two (x : Z) : Z := 2 ^ Z.log2_up x.

Definition plan (n : Z) : Z :=
  let target := Z.max n 3 in
  next_power_of_two (ceil_div (target * 4) 3).

(** ** The probe sequence *)

(** [geo x n = 1 + x + ... + x^(n-1)]. *)
Fixpoint geo (x : Z) (n : nat) : Z :=
  match n with
  | O => 0
  | S n' => 1 + x * geo x n'
  end.

(** The recurrence once [hash] has been shifted down to zero, on a table
    of [m] slots. *)
Definition lcg (m b : Z) : Z := (5 * b + 1) mod m.

(** The first [2^k] slots of an orbit. *)
Definition orbit (k : nat) (x : Z) : list Z :=
  List.map (fun i => Nat.iter i (lcg (2 ^ Z.of_nat k)) x) (seq 0 (2 ^ k)).

(** Iterations within which a probe loop over a table of [allocated]
    slots leaves, if it leaves at all. *)
Definition probe_budget (allocated : Z) : nat := 8 + Z.to_nat allocated.

(** ** Tables *)

(** An array of [allocated] entries, [allocated] being a [uint32_t]. *)
Definition array_ok (self : ClassMap) : Prop :=
  Z.of_nat (length (entries self)) = allocated self
  /\ allocated self < modulus.

(** A table whose array has [2^k] slots, [allocated] saying so. *)
Definition pow2_table (k : nat) (map : ClassMap) : Prop :=
  (k <= 31)%nat /\ allocated map = 2 ^ Z.of_nat k
  /\ length (entries map) = (2 ^ k)%nat.

(** Slot [i] of the array is unused. *)
Definition vacant (base : list ClassMapEntry) (i : nat) : Prop :=
  exists e, base !! i = Some e /\ name e = None.

(** Some slot of the array holds the key [nm]. *)
Definition stored (base : list ClassMapEntry) (nm : PyStringObject) : Prop :=
  exists e, e ∈ base /\ name e = Some nm.

Definition is_occupied (e : ClassMapEntry) : bool :=
  match name e with Some _ => true | None => false end.

(** The occupied slots, in array order, and their [index] fields. *)
Definition occupied_entries (base : list ClassMapEntry) : list ClassMapEntry :=
  List.filter is_occupied base.

Definition occupied_indices (base : list ClassMapEntry) : list Z :=
  List.map index (occupied_entries base).

(** What [insert_member] writes once it has found slot [slot] free. *)
Definition store (map : ClassMap) (slot : nat) (nm : PyStringObject)
    (mb : Member) : ClassMap :=
  {| entries := <[slot := {| name := Some nm; member := Some mb;
                             index := member_count map |}]> (entries map);
     allocated := allocated map;
     member_count := add (member_count map) 1 |}.

(** [lookup_path base mask nm n hash bucket e]: probing for [nm] from
    [(hash, bucket)] passes [n] slots holding other keys and then meets
    the entry [e], whose key is [nm]. *)
Inductive lookup_path (base : list ClassMapEntry) (mask : Z)
    (nm : PyStringObject) : nat -> Z -> Z -> ClassMapEntry -> Prop :=
| lookup_path_hit hash bucket e ename :
    base !! Z.to_nat bucket = Some e ->
    name e = Some ename ->
    pystr_equal nm ename = true ->
    lookup_path base mask nm 0 hash bucket e
| lookup_path_skip n hash bucket e0 ename e :
    base !! Z.to_nat bucket = Some e0 ->
    name e0 = Some ename ->
    pystr_equal nm ename = false ->
    lookup_path base mask nm n (next_hash hash)
      (next_bucket mask hash bucket) e ->
    lookup_path base mask nm (Datatypes.S n) hash bucket e.

(** ** Dicts and what a construction does with them *)

(** A dict whose keys are strings and whose values are members. *)
Definition typed_items (kvs : list (PyStringObject * Member))
  : list (PyObject * PyObject) :=
  List.map (fun kv => (PyStr (fst kv), PyMember (snd kv))) kvs.

Definition well_typed (kv : PyObject * PyObject) : Prop :=
  is_Some (PyString_Check (fst kv)) /\ is_Some (Member_Check (snd kv)).

(** The first complaint of [ClassMap_new] about the entry [(key, value)]. *)
Definition type_error (key value : PyObject) : PyErr :=
  match PyString_Check key with
  | None => py_expected_type_fail key "str"
  | Some _ => py_expected_type_fail value "Member"
  end.

(** The entries a construction writes for the pairs [kvs], the first of
    them receiving index [c0]. *)
Fixpoint entries_of (c0 : Z) (kvs : list (PyStringObject * Member))
  : list ClassMapEntry :=
  match kvs with
  | [] => []
  | kv :: rest =>
      {| name := Some (fst kv); member := Some (snd kv); index := c0 |}
      :: entries_of (c0 + 1) rest
  end.

(** The log of storing every pair of [kvs], and of releasing them. *)
Definition increfs (kvs : list (PyStringObject * Member)) : list rc_event :=
  List.flat_map
    (fun kv => [Incref (PyStr (fst kv)); Incref (PyMember (snd kv))]) kvs.

Definition decrefs (kvs : list (PyStringObject * Member)) : list rc_event :=
  List.flat_map
    (fun kv => [Decref (PyStr (fst kv)); Decref (PyMember (snd kv))]) kvs.

(** ** Clearing and traversing *)

(** A slot after [ClassMap_clear] has passed over it. *)
Definition clear_entry (e : ClassMapEntry) : ClassMapEntry :=
  match name e with
  | Some _ => {| name := None; member := None; index := index e |}
  | None => e
  end.

Definition cleared (self : ClassMap) : ClassMap :=
  {| entries := clear_entry <$> entries self;
     allocated := allocated self;
     member_count := member_count self |}.

(** The key and the value an occupied slot refers to. *)
Definition referents (e : ClassMapEntry) : list PyObject :=
  match name e with
  | Some nm =>
      PyStr nm :: match member e with
                  | Some mb => [PyMember mb]
                  | None => []
                  end
  | None => []
  end.

Definition all_referents (base : list ClassMapEntry) : list PyObject :=
  List.flat_map referents base.

(** The state of a visitor that has been handed the objects [os]. *)
Definition visited {VS : Type} (visit : PyObject -> VS -> Z * VS)
    (s : VS) (os : list PyObject) : VS :=
  foldl (fun s o => snd (visit o s)) s os.

(** Handing the objects [os] to the visitor one after the other, up to
    and including the first on which it answers non-zero: that answer (0
    when there is none), the state of the visitor and the objects handed
    over. *)
Fixpoint visit_until {VS : Type} (visit : PyObject -> VS -> Z * VS)
    (s : VS) (os : list PyObject) : Z * VS * list PyObject :=
  match os with
  | [] => (0, s, [])
  | o :: os' =>
      let '(v, s') := visit o s in
      if v =? 0
      then let '(v', s'', l) := visit_until visit s' os' in (v', s'', o :: l)
      else (v, s', [o])
  end.

(** The visitor, started in state [s], answers 0 on each of the objects
    [os] in turn. *)
Fixpoint answers_zero {VS : Type} (visit : PyObject -> VS -> Z * VS)
    (s : VS) (os : list PyObject) : Prop :=
  match os with
  | [] => True
  | o :: os' => fst (visit o s) = 0 /\ answers_zero visit (snd (visit o s)) os'
  end.

(** ** Reference accounting *)

(** The objects a log takes a reference to, and those it releases. *)
Definition taken (log : list rc_event) : list PyObject :=
  omap (fun ev => match ev with Incref o => Some o | Decref _ => None end) log.

Definition released (log : list rc_event) : list PyObject :=
  omap (fun ev => match ev with Decref o => Some o | Incref _ => None end) log.

(** The keys and values of a dict of strings and members. *)
Definition objects_of (kvs : list (PyStringObject * Member)) : list PyObject :=
  List.flat_map (fun kv => [PyStr (fst kv); PyMember (snd kv)]) kvs.

(** ** Examples *)

(** A hash function, a dict of three members and the table built from
    it. *)
Definition example_hash (s : PyStringObject) : Z :=
  Z.of_nat (String.length s) * 7 + 3.

Definition example_kvs : list (PyStringObject * Member) :=
  [("a"%string, MemberAt 1); ("bb"%string, MemberAt 2);
   ("c"%string, MemberAt 3)].

Definition example_table : ClassMap :=
  {| entries :=
       [ zero_entry;
         {| name := Some "bb"%string; member := Some (MemberAt 2); index := 1 |};
         {| name := Some "a"%string; member := Some (MemberAt 1); index := 0 |};
         {| name := Some "c"%string; member := Some (MemberAt 3); index := 2 |} ];
     allocated := 4;
     member_count := 3 |}.

(** A dict whose last key is an [int]. *)
Definition example_bad_items : list (PyObject * PyObject) :=
  typed_items example_kvs
  ++ [(PyOther "int"%string 5, PyMember (MemberAt 9))].

(** A visitor that counts the objects it is handed and always answers 0. *)
Definition counting_visit (_ : PyObject) (s : nat) : Z * nat :=
  (0, Datatypes.S s).

(** A visitor that counts the objects it is handed and answers 7 on the
    third of them. *)
Definition stopping_visit (_ : PyObject) (s : nat) : Z * nat :=
  (if (s =? 2)%nat then 7 else 0, Datatypes.S s).

(** A table of four slots, all of them taken. *)
Definition example_full_table : ClassMap :=
  {| entries :=
       [ {| name := Some "d"%string; member := Some (MemberAt 4); index := 3 |};
         {| name := Some "bb"%string; member := Some (MemberAt 2); index := 1 |};
         {| name := Some "a"%string; member := Some (MemberAt 1); index := 0 |};
         {| name := Some "c"%string; member := Some (MemberAt 3); index := 2 |} ];
     allocated := 4;
     member_count := 4 |}.

(** Dicts too large to write out: the keys are the strings of [start],
    [start + 1], ... letters, each mapped to a member of its own. *)
Fixpoint unary_name (i : nat) : PyStringObject :=
  match i with
  | O => EmptyString
  | Datatypes.S i' => String "a"%char (unary_name i')
  end.

Definition numbered_dict (start n : nat) : list (PyStringObject * Member) :=
  (fun i => (unary_name i, MemberAt (Z.of_nat i))) <$> seq start n.

(** A dict of 2^31 - 1 members. *)
Definition example_giant_dict : list (PyStringObject * Member) :=
  numbered_dict 0 (Z.to_nat (2 ^ 31 - 1)).

(** A dict of 2^30 + 3 entries whose sixth key is an [int]. *)
Definition example_giant_bad_items : list (PyObject * PyObject) :=
  typed_items (numbered_dict 0 5)
  ++ (PyOther "int"%string 5, PyMember (MemberAt 9))
     :: typed_items (numbered_dict 6 (Z.to_nat (2 ^ 30 - 3))).

(** * Properties *)

(** ** Arithmetic of the probe recurrence *)

Lemma geo_add x (a b : nat) :
  geo x (a + b)%nat = geo x a + x ^ Z.of_nat a * geo x b.
Proof.
  induction a as [|a IH].
  - cbn [geo Nat.add]. change (Z.of_nat 0) with 0. rewrite Z.pow_0_r. lia.
  - cbn [geo Nat.add]. rewrite IH, Nat2Z.inj_succ, Z.pow_succ_r by lia. ring.
Qed.

Lemma geo_mul x (a b : nat) :
  geo x (a * b)%nat = geo x a * geo (x ^ Z.of_nat a) b.
Proof.
  induction b as [|b IH].
  - rewrite Nat.mul_0_r. cbn [geo]. ring.
  - rewrite Nat.mul_succ_r, Nat.add_comm, geo_add, IH. cbn [geo]. ring.
Qed.

Lemma geo_closed x (n : nat) : (x - 1) * geo x n = x ^ Z.of_nat n - 1.
Proof.
  induction n as [|n IH].
  - cbn [geo]. change (Z.of_nat 0) with 0. rewrite Z.pow_0_r. ring.
  - cbn [geo]. rewrite Nat2Z.inj_succ, Z.pow_succ_r by lia.
    replace ((x - 1) * (1 + x * geo x n))
      with (x - 1 + x * ((x - 1) * geo x n)) by ring.
    rewrite IH. ring.
Qed.

Lemma geo_odd x (n : nat) :
  Z.odd x = true -> Z.odd (geo x n) = Nat.odd n.
Proof.
  intros Hx. induction n as [|n IH].
  - reflexivity.
  - cbn [geo]. rewrite Z.odd_add, Z.odd_mul, Hx, IH.
    rewrite Nat.odd_succ, <- Nat.negb_odd. cbn. reflexivity.
Qed.

Lemma pow5_succ_twice_odd (n : nat) :
  exists q, 1 + 5 ^ Z.of_nat n = 2 * (2 * q + 1).
Proof.
  induction n as [|n [q Hq]].
  - exists 0. reflexivity.
  - exists (5 * q + 1). rewrite Nat2Z.inj_succ, Z.pow_succ_r by lia. lia.
Qed.

Lemma pow5_odd (n : nat) : Z.odd (5 ^ Z.of_nat n) = true.
Proof.
  destruct (pow5_succ_twice_odd n) as [q Hq].
  replace (5 ^ Z.of_nat n) with (2 * (2 * q) + 1) by lia.
  rewrite Z.odd_add, Z.odd_mul. reflexivity.
Qed.

Lemma geo5_pow2 (i : nat) :
  exists q, geo 5 (2 ^ i)%nat = 2 ^ Z.of_nat i * (2 * q + 1).
Proof.
  induction i as [|i [q Hq]].
  - exists 0. reflexivity.
  - destruct (pow5_succ_twice_odd (2 ^ i)%nat) as [q' Hq'].
    exists (2 * q * q' + q + q').
    rewrite Nat.pow_succ_r', Nat.mul_comm, geo_mul, Hq.
    cbn [geo]. rewrite Z.mul_0_r, Z.add_0_r, Z.mul_1_r, Hq'.
    rewrite Nat2Z.inj_succ, Z.pow_succ_r by lia. ring.
Qed.

Lemma odd_part (d : nat) :
  (0 < d)%nat -> exists i m : nat, d = (2 ^ i * (2 * m + 1))%nat.
Proof.
  induction d as [d IH] using lt_wf_ind. intros Hd.
  destruct (Nat.Even_or_Odd d) as [[h Hh]|[h Hh]].
  - destruct (IH h) as (i & m & Him); [lia | lia |].
    exists (Datatypes.S i), m. rewrite Nat.pow_succ_r'. lia.
  - exists 0%nat, h. cbn [Nat.pow]. lia.
Qed.

Lemma odd_twice_plus_one q : Z.odd (2 * q + 1) = true.
Proof. rewrite Z.odd_add, Z.odd_mul. reflexivity. Qed.

(** The power of two in [geo 5 d] is the one in [d]. *)
Lemma geo5_valuation (d : nat) :
  (0 < d)%nat ->
  exists (i : nat) (o : Z),
    (2 ^ i <= d)%nat /\ Z.odd o = true /\ geo 5 d = 2 ^ Z.of_nat i * o.
Proof.
  intros Hd. destruct (odd_part d Hd) as (i & m & ->).
  destruct (geo5_pow2 i) as [q Hq].
  exists i, ((2 * q + 1) * geo (5 ^ Z.of_nat (2 ^ i)) (2 * m + 1)).
  split; [|split].
  - nia.
  - rewrite Z.odd_mul, odd_twice_plus_one, geo_odd by apply pow5_odd.
    rewrite Nat.add_comm. cbn [Nat.add]. rewrite Nat.odd_succ.
    rewrite Nat.even_mul. reflexivity.
  - rewrite geo_mul, Hq. ring.
Qed.

Lemma pow2_divides_odd_multiple (k i : nat) (o : Z) :
  Z.odd o = true ->
  (2 ^ Z.of_nat k | 2 ^ Z.of_nat i * o) ->
  (k <= i)%nat.
Proof.
  intros Ho Hdiv.
  destruct (le_lt_dec k i) as [|Hlt]; [assumption|exfalso].
  replace (Z.of_nat k) with (Z.of_nat i + Z.of_nat (k - i)) in Hdiv by lia.
  rewrite Z.pow_add_r in Hdiv by lia.
  apply Z.mul_divide_cancel_l in Hdiv; [|apply Z.pow_nonzero; lia].
  replace (Z.of_nat (k - i)) with (Z.succ (Z.of_nat (k - i - 1))) in Hdiv by lia.
  rewrite Z.pow_succ_r in Hdiv by lia.
  destruct Hdiv as [c Hc].
  assert (Z.odd o = false) as Hev.
  { rewrite Hc. replace (c * (2 * 2 ^ Z.of_nat (k - i - 1)))
      with (2 * (c * 2 ^ Z.of_nat (k - i - 1))) by ring.
    rewrite Z.odd_mul. reflexivity. }
  congruence.
Qed.

Lemma pow2_of_nat (k : nat) : Z.of_nat (2 ^ k) = 2 ^ Z.of_nat k.
Proof. rewrite Nat2Z.inj_pow. reflexivity. Qed.

Lemma iter_lcg_closed m (n : nat) b :
  Nat.iter n (lcg m) b mod m = (5 ^ Z.of_nat n * b + geo 5 n) mod m.
Proof.
  induction n as [|n IH].
  - cbn [Nat.iter geo]. change (Z.of_nat 0) with 0.
    rewrite Z.pow_0_r, Z.mul_1_l, Z.add_0_r. reflexivity.
  - rewrite Nat.iter_succ. cbn [geo]. unfold lcg at 1. rewrite Zmod_mod.
    rewrite <- Zplus_mod_idemp_l, <- Zmult_mod_idemp_r, IH.
    rewrite Zmult_mod_idemp_r, Zplus_mod_idemp_l.
    f_equal. rewrite Nat2Z.inj_succ, Z.pow_succ_r by lia. ring.
Qed.

Lemma iter_lcg_range m (n : nat) b :
  0 < m -> 0 <= b < m -> 0 <= Nat.iter n (lcg m) b < m.
Proof.
  intros Hm Hb. destruct n as [|n]; [exact Hb|].
  rewrite Nat.iter_succ. unfold lcg at 1. apply Z.mod_pos_bound. exact Hm.
Qed.

(** Fewer than [2^k] steps never lead back to the starting slot. *)
Lemma lcg_no_return (k d : nat) x :
  0 <= x < 2 ^ Z.of_nat k ->
  (0 < d < 2 ^ k)%nat ->
  Nat.iter d (lcg (2 ^ Z.of_nat k)) x <> x.
Proof.
  intros Hx Hd Heq.
  pose proof (iter_lcg_closed (2 ^ Z.of_nat k) d x) as Hc.
  rewrite Heq in Hc.
  assert (2 ^ Z.of_nat k | geo 5 d * (4 * x + 1)) as Hdiv.
  { pose proof (geo_closed 5 d) as Hg.
    replace (geo 5 d * (4 * x + 1))
      with (5 ^ Z.of_nat d * x + geo 5 d - x)
      by (replace (5 ^ Z.of_nat d) with (4 * geo 5 d + 1) by lia; ring).
    apply Z.mod_divide; [lia|].
    rewrite Zminus_mod, <- Hc, Z.sub_diag. apply Zmod_0_l. }
  destruct (geo5_valuation d) as (i & o & Hi & Ho & Hgeo); [lia|].
  rewrite Hgeo, <- Z.mul_assoc in Hdiv.
  apply pow2_divides_odd_multiple in Hdiv.
  - assert (2 ^ k <= 2 ^ i)%nat by (apply Nat.pow_le_mono_r; lia). lia.
  - rewrite Z.odd_mul, Ho. replace (4 * x + 1) with (2 * (2 * x) + 1) by ring.
    apply odd_twice_plus_one.
Qed.

Lemma orbit_length k x : length (orbit k x) = (2 ^ k)%nat.
Proof. unfold orbit. rewrite length_map, length_seq. reflexivity. Qed.

Lemma orbit_lookup k x (i : nat) :
  (i < 2 ^ k)%nat ->
  orbit k x !! i = Some (Nat.iter i (lcg (2 ^ Z.of_nat k)) x).
Proof.
  intros Hi. unfold orbit.
  change (List.map ?f ?l) with (f <$> l).
  rewrite list_lookup_fmap, lookup_seq_lt by exact Hi. reflexivity.
Qed.

Lemma orbit_NoDup k x : 0 <= x < 2 ^ Z.of_nat k -> NoDup (orbit k x).
Proof.
  intros Hx.
  assert (forall i j v, (i < j)%nat ->
            orbit k x !! i = Some v -> orbit k x !! j = Some v -> False)
    as Hlt.
  { intros i j v Hij Hi Hj.
    pose proof (lookup_lt_Some _ _ _ Hj) as Hjl. rewrite orbit_length in Hjl.
    rewrite orbit_lookup in Hi by lia. rewrite orbit_lookup in Hj by lia.
    replace j with ((j - i) + i)%nat in Hj by lia.
    rewrite Nat.iter_add in Hj.
    injection Hi as Hi. injection Hj as Hj. rewrite Hi in Hj.
    apply (lcg_no_return k (j - i) v); [|lia|exact Hj].
    rewrite <- Hi. apply iter_lcg_range; [|exact Hx].
    apply Z.pow_pos_nonneg; lia. }
  apply NoDup_alt. intros i j v Hi Hj.
  destruct (lt_eq_lt_dec i j) as [[Hij|Hij]|Hij]; [|exact Hij|].
  - exfalso. exact (Hlt i j v Hij Hi Hj).
  - exfalso. exact (Hlt j i v Hij Hj Hi).
Qed.

(** Full period: [2^k] consecutive steps reach every slot. *)
Lemma lcg_covers (k : nat) x s :
  0 <= x < 2 ^ Z.of_nat k ->
  0 <= s < 2 ^ Z.of_nat k ->
  exists i : nat, (i < 2 ^ k)%nat /\ Nat.iter i (lcg (2 ^ Z.of_nat k)) x = s.
Proof.
  intros Hx Hs.
  assert (In s (orbit k x)) as Hin.
  { pose proof (proj1 (NoDup_ListNoDup _) (orbit_NoDup k x Hx)) as Hnd.
    apply (NoDup_length_incl Hnd (l' := List.map Z.of_nat (seq 0 (2 ^ k)))).
    - rewrite length_map, length_seq, orbit_length. lia.
    - intros v Hv. unfold orbit in Hv. apply in_map_iff in Hv.
      destruct Hv as (i & <- & _).
      assert (0 < 2 ^ Z.of_nat k) as Hm by (apply Z.pow_pos_nonneg; lia).
      pose proof (iter_lcg_range (2 ^ Z.of_nat k) i x Hm Hx) as Hr.
      apply in_map_iff.
      exists (Z.to_nat (Nat.iter i (lcg (2 ^ Z.of_nat k)) x)).
      split; [lia|]. apply in_seq. pose proof (pow2_of_nat k). lia.
    - apply in_map_iff. exists (Z.to_nat s). split; [lia|].
      apply in_seq. pose proof (pow2_of_nat k). lia. }
  unfold orbit in Hin. apply in_map_iff in Hin.
  destruct Hin as (i & Hi & Hseq). apply in_seq in Hseq.
  exists i. split; [lia|exact Hi].
Qed.


(** ** The recurrence on a table of [2^k] slots *)

Section Probe.

Variable k : nat.
Hypothesis k_le : (k <= 32)%nat.

Local Abbreviation cap := (2 ^ Z.of_nat k).

Lemma cap_pos : 0 < cap.
Proof. apply Z.pow_pos_nonneg; lia. Qed.

Lemma cap_le_modulus : cap <= modulus.
Proof. apply Z.pow_le_mono_r; unfold width; lia. Qed.

Lemma cap_divides_modulus : (cap | modulus).
Proof.
  exists (2 ^ (32 - Z.of_nat k)). unfold modulus, width.
  rewrite <- Z.pow_add_r by lia. f_equal. lia.
Qed.

Lemma u32_mod_cap x : u32 x mod cap = x mod cap.
Proof.
  unfold u32. apply Z.mod_mod_divide, cap_divides_modulus.
Qed.

Lemma u32_add_mod_cap x y : (u32 x + y) mod cap = (x + y) mod cap.
Proof.
  rewrite <- Zplus_mod_idemp_l, u32_mod_cap, Zplus_mod_idemp_l. reflexivity.
Qed.

Lemma mask_pow2 : sub cap 1 = cap - 1.
Proof.
  unfold sub, u32. apply Z.mod_small.
  pose proof cap_pos. pose proof cap_le_modulus. lia.
Qed.

Lemma land_mask x : Z.land x (cap - 1) = x mod cap.
Proof.
  replace (cap - 1) with (Z.ones (Z.of_nat k))
    by (rewrite Z.ones_equiv; lia).
  apply Z.land_ones. lia.
Qed.

(** On a power-of-two table the masked sum is a residue modulo the
    capacity. *)
Lemma next_bucket_pow2 hash bucket :
  next_bucket (cap - 1) hash bucket = (5 * bucket + hash + 1) mod cap.
Proof.
  unfold next_bucket, add, shl. rewrite land_mask, u32_mod_cap.
  rewrite u32_add_mod_cap, <- Z.add_assoc.
  rewrite u32_add_mod_cap, <- Z.add_assoc.
  rewrite u32_add_mod_cap. f_equal.
  rewrite Z.shiftl_mul_pow2 by lia. change (2 ^ 2) with 4. ring.
Qed.

Lemma next_bucket_range hash bucket :
  0 <= next_bucket (cap - 1) hash bucket < cap.
Proof. rewrite next_bucket_pow2. apply Z.mod_pos_bound, cap_pos. Qed.

Lemma next_bucket_lcg bucket :
  next_bucket (cap - 1) 0 bucket = lcg cap bucket.
Proof. rewrite next_bucket_pow2. unfold lcg. f_equal. ring. Qed.

End Probe.

Lemma probe_state_succ mask hash (n : nat) :
  probe_state mask hash (Datatypes.S n)
  = probe_step mask (probe_state mask hash n).
Proof. unfold probe_state. apply Nat.iter_succ. Qed.

Lemma probe_hash mask hash (n : nat) :
  fst (probe_state mask hash n) = Z.shiftr hash (5 * Z.of_nat n).
Proof.
  induction n as [|n IH].
  - reflexivity.
  - rewrite probe_state_succ. cbn [probe_step fst]. rewrite IH.
    unfold next_hash, shr. rewrite Z.shiftr_shiftr by lia. f_equal. lia.
Qed.

(** A 32-bit hash is used up after seven shifts by five. *)
Lemma probe_hash_exhausted mask hash (n : nat) :
  in_range hash -> (7 <= n)%nat -> fst (probe_state mask hash n) = 0.
Proof.
  intros [Hlo Hhi] Hn. rewrite probe_hash, Z.shiftr_div_pow2 by lia.
  apply Z.div_small. split; [exact Hlo|].
  apply Z.lt_le_trans with (2 ^ 32); [exact Hhi|].
  apply Z.pow_le_mono_r; lia.
Qed.

Lemma probe_bucket_range (k : nat) hash (n : nat) :
  (k <= 32)%nat ->
  0 <= probe_bucket (2 ^ Z.of_nat k - 1) hash n < 2 ^ Z.of_nat k.
Proof.
  intros Hk. unfold probe_bucket. destruct n as [|n].
  - change (0 <= Z.land hash (2 ^ Z.of_nat k - 1) < 2 ^ Z.of_nat k).
    rewrite (land_mask k Hk). apply Z.mod_pos_bound. apply (cap_pos k Hk).
  - rewrite probe_state_succ. cbn [probe_step snd].
    apply next_bucket_range. exact Hk.
Qed.

(** From the seventh iteration on, the buckets follow [lcg]. *)
Lemma probe_bucket_from (k : nat) hash (s i : nat) :
  (k <= 32)%nat -> in_range hash -> (7 <= s)%nat ->
  probe_bucket (2 ^ Z.of_nat k - 1) hash (s + i)
  = Nat.iter i (lcg (2 ^ Z.of_nat k))
      (probe_bucket (2 ^ Z.of_nat k - 1) hash s).
Proof.
  intros Hk Hh Hs. induction i as [|i IH].
  - rewrite Nat.add_0_r. unfold Nat.iter at 1. cbn [nat_rect]. reflexivity.
  - rewrite Nat.iter_succ, <- IH. unfold probe_bucket.
    rewrite Nat.add_succ_r, probe_state_succ. cbn [probe_step snd].
    rewrite probe_hash_exhausted by (trivial || lia).
    apply next_bucket_lcg. exact Hk.
Qed.

(** Every slot is probed within [7 + 2^k] iterations. *)
Lemma probe_reaches (k : nat) hash s :
  (k <= 32)%nat -> in_range hash ->
  0 <= s < 2 ^ Z.of_nat k ->
  exists n : nat,
    (n < 7 + 2 ^ k)%nat /\ probe_bucket (2 ^ Z.of_nat k - 1) hash n = s.
Proof.
  intros Hk Hh Hs.
  destruct (lcg_covers k (probe_bucket (2 ^ Z.of_nat k - 1) hash 7) s)
    as (i & Hi & Hit).
  - apply probe_bucket_range. exact Hk.
  - exact Hs.
  - exists (7 + i)%nat. split; [lia|].
    rewrite probe_bucket_from by (assumption || lia). exact Hit.
Qed.

(** ** The two probe loops *)

Lemma probe_from_succ mask st (n : nat) :
  Nat.iter (Datatypes.S n) (probe_step mask) st
  = Nat.iter n (probe_step mask) (probe_step mask st).
Proof. apply Nat.iter_succ_r. Qed.

Lemma insert_loop_Done fuel map mask nm mb hash bucket map' log :
  insert_loop fuel map mask nm mb hash bucket = Done (map', log) ->
  exists slot,
    vacant (entries map) slot /\ map' = store map slot nm mb
    /\ log = [Incref (PyStr nm); Incref (PyMember mb)].
Proof.
  revert hash bucket. induction fuel as [|fuel IH]; intros hash bucket H.
  - discriminate.
  - cbn [insert_loop] in H.
    destruct (entries map !! Z.to_nat bucket) as [e|] eqn:He; [|discriminate].
    destruct (name e) as [ename|] eqn:Hn.
    + exact (IH _ _ H).
    + cbn in H. injection H as <- <-.
      exists (Z.to_nat bucket). split; [|split; reflexivity].
      exists e. split; assumption.
Qed.

Lemma insert_loop_reaches (n : nat) :
  forall fuel map mask nm mb hash bucket,
    (n < fuel)%nat ->
    (forall j : nat, (j <= n)%nat ->
       is_Some (entries map !!
                  Z.to_nat (snd (Nat.iter j (probe_step mask) (hash, bucket))))) ->
    vacant (entries map)
      (Z.to_nat (snd (Nat.iter n (probe_step mask) (hash, bucket)))) ->
    exists r, insert_loop fuel map mask nm mb hash bucket = Done r.
Proof.
  induction n as [|n IH]; intros fuel map mask nm mb hash bucket Hf Hin Hv.
  - destruct fuel as [|fuel]; [lia|].
    destruct Hv as (e & He & Hn). cbn in He. cbn [insert_loop].
    rewrite He, Hn. eexists. reflexivity.
  - destruct fuel as [|fuel]; [lia|]. cbn [insert_loop].
    destruct (Hin 0%nat) as [e He]; [lia|]. cbn in He. rewrite He.
    destruct (name e) as [ename|] eqn:Hn; [|eexists; reflexivity].
    apply IH.
    + lia.
    + intros j Hj. specialize (Hin (Datatypes.S j)).
      rewrite probe_from_succ in Hin. apply Hin. lia.
    + rewrite probe_from_succ in Hv. exact Hv.
Qed.

Lemma lookup_loop_reaches (n : nat) :
  forall fuel base mask nm hash bucket mo io,
    (n < fuel)%nat ->
    (forall j : nat, (j <= n)%nat ->
       is_Some (base !!
                  Z.to_nat (snd (Nat.iter j (probe_step mask) (hash, bucket))))) ->
    vacant base
      (Z.to_nat (snd (Nat.iter n (probe_step mask) (hash, bucket)))) ->
    exists r, lookup_loop fuel base mask nm hash bucket mo io = Done r.
Proof.
  induction n as [|n IH]; intros fuel base mask nm hash bucket mo io Hf Hin Hv.
  - destruct fuel as [|fuel]; [lia|].
    destruct Hv as (e & He & Hn). cbn in He. cbn [lookup_loop].
    rewrite He, Hn. eexists. reflexivity.
  - destruct fuel as [|fuel]; [lia|]. cbn [lookup_loop].
    destruct (Hin 0%nat) as [e He]; [lia|]. cbn in He. rewrite He.
    destruct (name e) as [ename|] eqn:Hn; [|eexists; reflexivity].
    destruct (pystr_equal nm ename); [eexists; reflexivity|].
    apply IH.
    + lia.
    + intros j Hj. specialize (Hin (Datatypes.S j)).
      rewrite probe_from_succ in Hin. apply Hin. lia.
    + rewrite probe_from_succ in Hv. exact Hv.
Qed.

(** A lookup that returns has either left the outputs alone or copied
    them from an entry whose key is the name looked up. *)
Lemma lookup_loop_Done fuel base mask nm hash bucket mo io r :
  lookup_loop fuel base mask nm hash bucket mo io = Done r ->
  r = (mo, io)
  \/ exists e, e ∈ base /\ name e = Some nm /\ r = (member e, index e).
Proof.
  revert hash bucket. induction fuel as [|fuel IH]; intros hash bucket H.
  - discriminate.
  - cbn [lookup_loop] in H.
    destruct (base !! Z.to_nat bucket) as [e|] eqn:He; [|discriminate].
    destruct (name e) as [ename|] eqn:Hn.
    + destruct (pystr_equal nm ename) eqn:Heq.
      * right. exists e. apply String.eqb_eq in Heq. subst ename.
        injection H as <-. split; [|split; [assumption|reflexivity]].
        apply list_elem_of_lookup. eauto.
      * exact (IH _ _ H).
    + left. injection H as <-. reflexivity.
Qed.

Lemma lookup_loop_mono fuel fuel' base mask nm hash bucket mo io r :
  (fuel <= fuel')%nat ->
  lookup_loop fuel base mask nm hash bucket mo io = Done r ->
  lookup_loop fuel' base mask nm hash bucket mo io = Done r.
Proof.
  revert fuel' hash bucket.
  induction fuel as [|fuel IH]; intros fuel' hash bucket Hle H.
  - discriminate.
  - destruct fuel' as [|fuel']; [lia|]. cbn [lookup_loop] in H |- *.
    destruct (base !! Z.to_nat bucket) as [e|]; [|discriminate].
    destruct (name e) as [ename|]; [|exact H].
    destruct (pystr_equal nm ename); [exact H|].
    apply IH; [lia|exact H].
Qed.

Lemma insert_loop_mono fuel fuel' map mask nm mb hash bucket r :
  (fuel <= fuel')%nat ->
  insert_loop fuel map mask nm mb hash bucket = Done r ->
  insert_loop fuel' map mask nm mb hash bucket = Done r.
Proof.
  revert fuel' hash bucket.
  induction fuel as [|fuel IH]; intros fuel' hash bucket Hle H.
  - discriminate.
  - destruct fuel' as [|fuel']; [lia|]. cbn [insert_loop] in H |- *.
    destruct (entries map !! Z.to_nat bucket) as [e|]; [|discriminate].
    destruct (name e) as [ename|]; [|exact H].
    apply IH; [lia|exact H].
Qed.

Lemma lookup_path_found base mask nm n hash bucket e :
  lookup_path base mask nm n hash bucket e ->
  forall fuel mo io,
    (n < fuel)%nat ->
    lookup_loop fuel base mask nm hash bucket mo io
    = Done (member e, index e).
Proof.
  induction 1 as [hash bucket e ename He Hn Heq
                 |n hash bucket e0 ename e He Hn Heq _ IH];
    intros fuel mo io Hf.
  - destruct fuel as [|fuel]; [lia|]. cbn [lookup_loop].
    rewrite He, Hn, Heq. reflexivity.
  - destruct fuel as [|fuel]; [lia|]. cbn [lookup_loop].
    rewrite He, Hn, Heq. apply IH. lia.
Qed.

Lemma lookup_path_entry base mask nm n hash bucket e :
  lookup_path base mask nm n hash bucket e ->
  e ∈ base /\ name e = Some nm.
Proof.
  induction 1 as [hash bucket e ename He Hn Heq|]; [|assumption].
  apply String.eqb_eq in Heq. subst ename. split; [|exact Hn].
  apply list_elem_of_lookup. eauto.
Qed.

(** Filling a free slot leaves every path to a stored key as it was. *)
Lemma lookup_path_insert base mask nm n hash bucket e slot x :
  vacant base slot ->
  lookup_path base mask nm n hash bucket e ->
  lookup_path (<[slot := x]> base) mask nm n hash bucket e.
Proof.
  intros (e' & He' & Hn').
  assert (forall b e1 k, base !! Z.to_nat b = Some e1 -> name e1 = Some k ->
            <[slot := x]> base !! Z.to_nat b = Some e1) as Hkeep.
  { intros b e1 k Hb Hk. rewrite list_lookup_insert_ne; [exact Hb|].
    intros ->. congruence. }
  induction 1 as [hash bucket e ename He Hn Heq
                 |n hash bucket e0 ename e He Hn Heq _ IH].
  - eapply lookup_path_hit; eauto.
  - eapply lookup_path_skip; eauto.
Qed.

(** After [insert_member] has stored a key that was not in the table, a
    lookup of that key walks the same slots and ends on the new entry. *)
Lemma insert_loop_path fuel map mask nm mb hash bucket map' log :
  insert_loop fuel map mask nm mb hash bucket = Done (map', log) ->
  ~ stored (entries map) nm ->
  exists n : nat,
    (n < fuel)%nat /\
    lookup_path (entries map') mask nm n hash bucket
      {| name := Some nm; member := Some mb; index := member_count map |}.
Proof.
  intros H Hfresh.
  destruct (insert_loop_Done _ _ _ _ _ _ _ _ _ H) as (slot & Hv & -> & _).
  destruct Hv as (ev & Hev & Hnv).
  revert hash bucket H.
  induction fuel as [|fuel IH]; intros hash bucket H; [discriminate|].
  cbn [insert_loop] in H.
  destruct (entries map !! Z.to_nat bucket) as [e|] eqn:He; [|discriminate].
  destruct (name e) as [ename|] eqn:Hn.
  - destruct (IH _ _ H) as (n & Hlt & Hp).
    exists (Datatypes.S n). split; [lia|].
    eapply lookup_path_skip; [| exact Hn | | exact Hp].
    + cbn [store entries]. rewrite list_lookup_insert_ne; [exact He|].
      intros ->. congruence.
    + apply String.eqb_neq. intros ->. apply Hfresh.
      exists e. split; [|exact Hn]. apply list_elem_of_lookup. eauto.
  - assert (slot = Z.to_nat bucket) as ->.
    { apply (f_equal (fun r => match r with
                               | Done (m, _) => entries m
                               | _ => []
                               end)) in H.
      cbn in H.
      destruct (decide (slot = Z.to_nat bucket)) as [|Hne]; [assumption|].
      apply (f_equal (fun l => l !! Z.to_nat bucket)) in H.
      rewrite list_lookup_insert_eq in H by (eapply lookup_lt_Some; eauto).
      rewrite list_lookup_insert_ne, He in H by exact Hne.
      injection H as H. rewrite <- H in Hn. discriminate. }
    exists 0%nat. split; [lia|].
    eapply lookup_path_hit.
    + cbn [store entries]. apply list_lookup_insert_eq.
      eapply lookup_lt_Some; eauto.
    + reflexivity.
    + apply String.eqb_refl.
Qed.

(** ** Termination on a table with a free slot *)

Lemma hash32_range pystr_hash nm : in_range (hash32 pystr_hash nm).
Proof. unfold hash32, u32, in_range. apply Z.mod_pos_bound. reflexivity. Qed.

Lemma pow2_table_mask k map :
  pow2_table k map -> sub (allocated map) 1 = 2 ^ Z.of_nat k - 1.
Proof. intros (Hk & -> & _). apply mask_pow2. lia. Qed.

Lemma pow2_table_budget k map :
  pow2_table k map -> probe_budget (allocated map) = (8 + 2 ^ k)%nat.
Proof.
  intros (_ & -> & _). unfold probe_budget.
  rewrite <- pow2_of_nat, Nat2Z.id. reflexivity.
Qed.

Lemma probe_in_bounds k map hash (j : nat) :
  pow2_table k map ->
  is_Some (entries map !! Z.to_nat (probe_bucket (2 ^ Z.of_nat k - 1) hash j)).
Proof.
  intros (Hk & _ & Hlen). apply lookup_lt_is_Some. rewrite Hlen.
  pose proof (probe_bucket_range k hash j) as Hr.
  pose proof (pow2_of_nat k). lia.
Qed.

Lemma vacant_reached k map hash :
  pow2_table k map -> in_range hash ->
  (exists slot, vacant (entries map) slot) ->
  exists n : nat,
    (n < 7 + 2 ^ k)%nat /\
    vacant (entries map)
      (Z.to_nat (probe_bucket (2 ^ Z.of_nat k - 1) hash n)).
Proof.
  intros Ht Hh (slot & Hv).
  destruct Ht as (Hk & _ & Hlen).
  assert (slot < 2 ^ k)%nat as Hslot.
  { destruct Hv as (e & He & _). rewrite <- Hlen. eapply lookup_lt_Some; eauto. }
  destruct (probe_reaches k hash (Z.of_nat slot)) as (n & Hn & Hb);
    [lia | exact Hh | pose proof (pow2_of_nat k); lia |].
  exists n. split; [exact Hn|]. rewrite Hb, Nat2Z.id. exact Hv.
Qed.

Lemma insert_member_returns pystr_hash k map fuel nm mb :
  pow2_table k map ->
  (exists slot, vacant (entries map) slot) ->
  (probe_budget (allocated map) <= fuel)%nat ->
  exists slot,
    vacant (entries map) slot /\
    insert_member pystr_hash fuel map nm mb
    = Done (store map slot nm mb, [Incref (PyStr nm); Incref (PyMember mb)]).
Proof.
  intros Ht Hv Hf. unfold insert_member.
  rewrite (pow2_table_mask k map Ht).
  rewrite (pow2_table_budget k map Ht) in Hf.
  destruct (vacant_reached k map (hash32 pystr_hash nm) Ht
              (hash32_range pystr_hash nm) Hv) as (n & Hn & Hvn).
  destruct (insert_loop_reaches n fuel map (2 ^ Z.of_nat k - 1) nm mb
              (hash32 pystr_hash nm)
              (Z.land (hash32 pystr_hash nm) (2 ^ Z.of_nat k - 1)))
    as ([map' log] & Hr).
  - lia.
  - intros j _. apply (probe_in_bounds k map _ j Ht).
  - exact Hvn.
  - rewrite Hr.
    destruct (insert_loop_Done _ _ _ _ _ _ _ _ _ Hr) as (slot & Hs & -> & ->).
    exists slot. split; [exact Hs|reflexivity].
Qed.

Lemma lookup_member_returns pystr_hash k map fuel nm mo io :
  pow2_table k map ->
  (exists slot, vacant (entries map) slot) ->
  (probe_budget (allocated map) <= fuel)%nat ->
  exists r,
    ClassMap_LookupMember pystr_hash fuel map nm mo io = Done r.
Proof.
  intros Ht Hv Hf. unfold ClassMap_LookupMember.
  rewrite (pow2_table_mask k map Ht).
  rewrite (pow2_table_budget k map Ht) in Hf.
  destruct (vacant_reached k map (hash32 pystr_hash nm) Ht
              (hash32_range pystr_hash nm) Hv) as (n & Hn & Hvn).
  apply (lookup_loop_reaches n).
  - lia.
  - intros j _. apply (probe_in_bounds k map _ j Ht).
  - exact Hvn.
Qed.

(** A table without free slot is what the loops rely on never meeting:
    on it the search for a name that is not stored, and every insertion,
    go on for ever. *)
Lemma lookup_loop_full_table (k : nat) base nm mo io (fuel : nat) :
  forall hash bucket,
    (k <= 32)%nat ->
    length base = (2 ^ k)%nat ->
    0 <= bucket < 2 ^ Z.of_nat k ->
    (forall e, e ∈ base -> exists ename, name e = Some ename /\ ename <> nm) ->
    lookup_loop fuel base (2 ^ Z.of_nat k - 1) nm hash bucket mo io = Diverge.
Proof.
  induction fuel as [|fuel IH]; intros hash bucket Hk Hlen Hb Hfull.
  - reflexivity.
  - cbn [lookup_loop].
    destruct (lookup_lt_is_Some_2 base (Z.to_nat bucket)) as [e He].
    { rewrite Hlen. pose proof (pow2_of_nat k). lia. }
    rewrite He.
    destruct (Hfull e) as (ename & -> & Hne);
      [apply list_elem_of_lookup; eauto|].
    replace (pystr_equal nm ename) with false
      by (symmetry; apply String.eqb_neq; congruence).
    apply IH; try assumption. apply next_bucket_range. exact Hk.
Qed.

Lemma insert_loop_full_table (k : nat) map nm mb (fuel : nat) :
  forall hash bucket,
    (k <= 32)%nat ->
    length (entries map) = (2 ^ k)%nat ->
    0 <= bucket < 2 ^ Z.of_nat k ->
    (forall e, e ∈ entries map -> is_Some (name e)) ->
    insert_loop fuel map (2 ^ Z.of_nat k - 1) nm mb hash bucket = Diverge.
Proof.
  induction fuel as [|fuel IH]; intros hash bucket Hk Hlen Hb Hfull.
  - reflexivity.
  - cbn [insert_loop].
    destruct (lookup_lt_is_Some_2 (entries map) (Z.to_nat bucket)) as [e He].
    { rewrite Hlen. pose proof (pow2_of_nat k). lia. }
    rewrite He.
    destruct (Hfull e) as (ename & ->); [apply list_elem_of_lookup; eauto|].
    apply IH; try assumption. apply next_bucket_range. exact Hk.
Qed.

(** Starting within the array, the insertion loop stays within it. *)
Lemma insert_loop_no_fault (k : nat) map nm mb (fuel : nat) :
  forall hash bucket,
    (k <= 32)%nat ->
    length (entries map) = (2 ^ k)%nat ->
    0 <= bucket < 2 ^ Z.of_nat k ->
    insert_loop fuel map (2 ^ Z.of_nat k - 1) nm mb hash bucket <> Fault.
Proof.
  induction fuel as [|fuel IH]; intros hash bucket Hk Hlen Hb.
  - discriminate.
  - cbn [insert_loop].
    destruct (lookup_lt_is_Some_2 (entries map) (Z.to_nat bucket)) as [e He].
    { rewrite Hlen. pose proof (pow2_of_nat k). lia. }
    rewrite He. destruct (name e) as [ename|]; [|discriminate].
    apply IH; try assumption. apply next_bucket_range. exact Hk.
Qed.

(** ** The planned capacity *)

Lemma pow2_ge_4 L : 4 <= 2 ^ L -> 2 <= L.
Proof.
  intros H. destruct (Z_lt_le_dec L 2) as [Hlt|]; [exfalso|assumption].
  destruct (Z_lt_le_dec L 0) as [Hneg|Hnn].
  - rewrite Z.pow_neg_r in H by exact Hneg. lia.
  - assert (2 ^ L <= 2 ^ 1) by (apply Z.pow_le_mono_r; lia).
    change (2 ^ 1) with 2 in *. lia.
Qed.

Lemma pow2_split_4 L : 2 <= L -> 2 ^ L = 4 * 2 ^ (L - 2).
Proof.
  intros H. replace L with (2 + (L - 2)) at 1 by lia.
  rewrite Z.pow_add_r by lia. reflexivity.
Qed.

(** Within [uint32_t] the capacity is a power of two, at least 4, and the
    entries fill at most three quarters of it. *)
Lemma planned_capacity_pow2 n :
  0 <= n < 2 ^ 30 ->
  exists k : nat,
    (2 <= k <= 31)%nat /\ planned_capacity n = 2 ^ Z.of_nat k
    /\ 4 * Z.max n 3 <= 3 * 2 ^ Z.of_nat k.
Proof.
  intros Hn. unfold planned_capacity, next_power_of_2, mul.
  change (2 ^ 30) with 1073741824 in Hn.
  set (c := Z.max n 3). assert (3 <= c < 1073741824) as Hc by (unfold c; lia).
  clearbody c.
  assert (u32 (c * 4) = c * 4) as ->
    by (apply Z.mod_small; change modulus with 4294967296; lia).
  set (q := c * 4 / 3).
  assert (4 <= q < 2147483648 /\ 4 * c - 2 <= 3 * q) as [Hq Hqc]
    by (unfold q; Z.div_mod_to_equations; lia).
  clearbody q.
  pose proof (Z.log2_up_spec q ltac:(lia)) as [_ Hup].
  assert (Z.log2_up q <= 31) as HL.
  { rewrite <- (Z.log2_up_pow2 31) by lia. apply Z.log2_up_le_mono.
    change (2 ^ 31) with 2147483648. lia. }
  assert (2 <= Z.log2_up q) as HL2 by (apply pow2_ge_4; lia).
  exists (Z.to_nat (Z.log2_up q)). rewrite Z2Nat.id by lia.
  split; [lia|]. split.
  - apply Z.mod_small. split; [apply Z.pow_nonneg; lia|].
    apply Z.le_lt_trans with (2 ^ 31); [apply Z.pow_le_mono_r; lia|reflexivity].
  - rewrite (pow2_split_4 _ HL2) in Hup |- *. lia.
Qed.

Lemma log2_up_floor_ceil c :
  3 <= c ->
  Z.log2_up (c * 4 / 3) = Z.log2_up (ceil_div (c * 4) 3).
Proof.
  intros Hc. unfold ceil_div.
  assert (4 <= c * 4 / 3) as Hq by (Z.div_mod_to_equations; lia).
  destruct (Z.eq_dec ((c * 4 + 3 - 1) / 3) (c * 4 / 3)) as [->|Hne];
    [reflexivity|].
  assert ((c * 4 + 3 - 1) / 3 = c * 4 / 3 + 1
          /\ (c * 4 = 3 * (c * 4 / 3) + 1 \/ c * 4 = 3 * (c * 4 / 3) + 2))
    as [-> Hr] by (Z.div_mod_to_equations; lia).
  set (q := c * 4 / 3) in *. clearbody q.
  pose proof (Z.log2_up_spec (q + 1) ltac:(lia)) as [Hlo Hhi].
  set (L := Z.log2_up (q + 1)) in *. clearbody L.
  assert (2 <= L) as HL by (apply pow2_ge_4; lia).
  apply Z.log2_up_unique; [lia|]. split; [|lia].
  assert (2 ^ Z.pred L <> q); [|lia].
  intros Heq.
  assert (2 <= Z.pred L) as HL' by (apply pow2_ge_4; lia).
  rewrite (pow2_split_4 _ HL') in Heq. lia.
Qed.

Lemma planned_capacity_plan n :
  0 <= n < 2 ^ 30 -> planned_capacity n = plan n.
Proof.
  intros Hn. destruct (planned_capacity_pow2 n Hn) as (k & Hk & Hcap & _).
  unfold plan, next_power_of_two.
  rewrite <- log2_up_floor_ceil by lia.
  change (2 ^ 30) with 1073741824 in Hn.
  unfold planned_capacity, next_power_of_2, mul in *.
  assert (u32 (Z.max n 3 * 4) = Z.max n 3 * 4) as Hm
    by (apply Z.mod_small; change modulus with 4294967296; lia).
  rewrite Hm in *. 
  assert (4 <= Z.max n 3 * 4 / 3 < 2147483648) as Hq
    by (Z.div_mod_to_equations; lia).
  set (q := Z.max n 3 * 4 / 3) in *. clearbody q.
  apply Z.mod_small.
  assert (Z.log2_up q <= 31) as HL.
  { rewrite <- (Z.log2_up_pow2 31) by lia. apply Z.log2_up_le_mono.
    change (2 ^ 31) with 2147483648. lia. }
  pose proof (Z.log2_up_nonneg q).
  split; [apply Z.pow_nonneg; lia|].
  apply Z.le_lt_trans with (2 ^ 31); [apply Z.pow_le_mono_r; lia|reflexivity].
Qed.

(** ** Occupied slots *)

Lemma occupied_entries_length base :
  (length (occupied_entries base) <= length base)%nat.
Proof.
  unfold occupied_entries. induction base as [|e base IH]; [reflexivity|].
  cbn [List.filter]. destruct (is_occupied e); cbn [length]; lia.
Qed.

Lemma vacant_exists base :
  (length (occupied_entries base) < length base)%nat ->
  exists slot, vacant base slot.
Proof.
  unfold occupied_entries. induction base as [|e base IH]; cbn; intros H.
  - lia.
  - destruct (is_occupied e) eqn:He.
    + destruct IH as (slot & e' & Hl & Hn); [cbn [length] in H; lia|].
      exists (Datatypes.S slot), e'. split; assumption.
    + exists 0%nat, e. split; [reflexivity|].
      unfold is_occupied in He. destruct (name e); [discriminate|reflexivity].
Qed.

Lemma occupied_entries_insert base slot x :
  vacant base slot -> is_occupied x = true ->
  occupied_entries (<[slot := x]> base) ≡ₚ x :: occupied_entries base.
Proof.
  intros (e & He & Hn) Hx. unfold occupied_entries.
  rewrite insert_take_drop by (eapply lookup_lt_Some; eauto).
  rewrite <- (take_drop_middle base slot e He) at 3.
  rewrite !List.filter_app. cbn [List.filter]. rewrite Hx.
  unfold is_occupied at 4. rewrite Hn.
  symmetry. apply Permutation_middle.
Qed.

Lemma stored_occupied base nm :
  stored base nm <-> exists e, e ∈ occupied_entries base /\ name e = Some nm.
Proof.
  unfold stored, occupied_entries. split; intros (e & He & Hn); exists e.
  - split; [|exact Hn]. apply list_elem_of_In, List.filter_In.
    split; [apply list_elem_of_In; exact He|].
    unfold is_occupied. rewrite Hn. reflexivity.
  - split; [|exact Hn]. apply list_elem_of_In in He.
    apply List.filter_In in He. apply list_elem_of_In, He.
Qed.

Lemma store_pow2_table k map slot nm mb :
  pow2_table k map -> pow2_table k (store map slot nm mb).
Proof.
  intros (Hk & Ha & Hl). unfold pow2_table. cbn [store entries allocated].
  rewrite length_insert. auto.
Qed.

Lemma entries_of_length c0 kvs : length (entries_of c0 kvs) = length kvs.
Proof.
  revert c0. induction kvs as [|kv kvs IH]; intros c0; cbn; [|rewrite IH];
    reflexivity.
Qed.

Lemma entries_of_lookup c0 kvs (i : nat) nm mb :
  kvs !! i = Some (nm, mb) ->
  entries_of c0 kvs !! i
  = Some {| name := Some nm; member := Some mb; index := c0 + Z.of_nat i |}.
Proof.
  revert c0 i. induction kvs as [|kv kvs IH]; intros c0 i H; [discriminate|].
  destruct i as [|i]; [|rewrite Nat2Z.inj_succ]; cbn in H |- *.
  - injection H as ->. cbn. rewrite Z.add_0_r. reflexivity.
  - rewrite (IH _ _ H). do 2 f_equal. lia.
Qed.

Lemma entries_of_index c0 kvs :
  List.map index (entries_of c0 kvs) = seqZ c0 (Z.of_nat (length kvs)).
Proof.
  revert c0. induction kvs as [|kv kvs IH]; intros c0.
  - reflexivity.
  - cbn [entries_of List.map length index]. rewrite IH.
    rewrite Nat2Z.inj_succ, (seqZ_cons c0) by lia.
    rewrite Z.pred_succ. reflexivity.
Qed.

Lemma entries_of_names c0 kvs e nm :
  e ∈ entries_of c0 kvs -> name e = Some nm -> nm ∈ kvs.*1.
Proof.
  revert c0. induction kvs as [|kv kvs IH]; intros c0 He Hn; cbn in He.
  - inversion He.
  - apply elem_of_cons in He. destruct He as [->|He].
    + cbn in Hn. injection Hn as <-. cbn. left.
    + cbn. right. exact (IH _ He Hn).
Qed.

(** ** Construction *)

Section Build.

Variable pystr_hash : PyStringObject -> Z.
Variable k : nat.
Variable fuel : nat.

(** Storing the pairs [kvs] in a table that has a free slot for each of
    them. *)
Lemma new_loop_fills kvs :
  forall map,
    pow2_table k map ->
    (probe_budget (allocated map) <= fuel)%nat ->
    (length (occupied_entries (entries map)) + length kvs <= 2 ^ k)%nat ->
    0 <= member_count map ->
    member_count map + Z.of_nat (length kvs) < modulus ->
    exists map',
      new_loop pystr_hash fuel map (typed_items kvs)
      = Done ((map', None), increfs kvs)
      /\ pow2_table k map'
      /\ member_count map' = member_count map + Z.of_nat (length kvs)
      /\ occupied_entries (entries map')
         ≡ₚ occupied_entries (entries map)
            ++ entries_of (member_count map) kvs
      /\ (forall mask nm n hash bucket e,
            lookup_path (entries map) mask nm n hash bucket e ->
            lookup_path (entries map') mask nm n hash bucket e).
Proof.
  induction kvs as [|[nm mb] rest IH]; intros map Ht Hf Hocc Hc0 Hc.
  - exists map. cbn [typed_items List.map new_loop increfs List.flat_map
                     entries_of length].
    rewrite app_nil_r, Z.add_0_r. unfold ret. auto.
  - cbn [length] in Hocc, Hc.
    destruct (insert_member_returns pystr_hash k map fuel nm mb Ht)
      as (slot & Hv & Hins); [|exact Hf|].
    { apply vacant_exists. destruct Ht as (_ & _ & ->). lia. }
    pose proof (occupied_entries_insert (entries map) slot
                  {| name := Some nm; member := Some mb;
                     index := member_count map |} Hv eq_refl) as Hperm.
    assert (member_count (store map slot nm mb) = member_count map + 1)
      as Hcnt.
    { cbn [store member_count]. unfold add, u32. apply Z.mod_small. lia. }
    destruct (IH (store map slot nm mb)) as (map' & Hnew & Ht' & Hc' & Hp' & Hpath).
    + apply store_pow2_table. exact Ht.
    + exact Hf.
    + cbn [store entries]. rewrite Hperm. cbn [length]. lia.
    + lia.
    + lia.
    + exists map'. split; [|split; [|split; [|split]]].
      * cbn [typed_items List.map new_loop PyString_Check Member_Check fst snd].
        rewrite Hins. cbn [bind]. fold (typed_items rest). rewrite Hnew.
        reflexivity.
      * exact Ht'.
      * rewrite Hc', Hcnt. cbn [length]. lia.
      * rewrite Hp'. cbn [store entries]. rewrite Hperm, Hcnt.
        cbn [entries_of fst snd app]. apply Permutation_middle.
      * intros mask nm' n hash bucket e Hpth. apply Hpath.
        cbn [store entries]. apply lookup_path_insert; assumption.
Qed.

(** Storing the pairs [kvs] in a table with room for them and a slot to
    spare. *)
Lemma new_loop_builds kvs :
  forall map,
    pow2_table k map ->
    (probe_budget (allocated map) <= fuel)%nat ->
    (length (occupied_entries (entries map)) + length kvs < 2 ^ k)%nat ->
    0 <= member_count map ->
    member_count map + Z.of_nat (length kvs) < modulus ->
    exists map',
      new_loop pystr_hash fuel map (typed_items kvs)
      = Done ((map', None), increfs kvs)
      /\ pow2_table k map'
      /\ member_count map' = member_count map + Z.of_nat (length kvs)
      /\ occupied_entries (entries map')
         ≡ₚ occupied_entries (entries map)
            ++ entries_of (member_count map) kvs
      /\ (forall mask nm n hash bucket e,
            lookup_path (entries map) mask nm n hash bucket e ->
            lookup_path (entries map') mask nm n hash bucket e).
Proof.
  intros map Ht Hf Hocc Hc0 Hc.
  apply new_loop_fills; [exact Ht|exact Hf|lia|exact Hc0|exact Hc].
Qed.

(** Every pair stored is then found where the lookup of its key probes,
    and carries its position as index. *)
Lemma new_loop_paths kvs :
  forall map map' log,
    pow2_table k map ->
    (probe_budget (allocated map) <= fuel)%nat ->
    (length (occupied_entries (entries map)) + length kvs < 2 ^ k)%nat ->
    0 <= member_count map ->
    member_count map + Z.of_nat (length kvs) < modulus ->
    NoDup kvs.*1 ->
    (forall nm, nm ∈ kvs.*1 -> ~ stored (entries map) nm) ->
    new_loop pystr_hash fuel map (typed_items kvs) = Done ((map', None), log) ->
    forall (i : nat) nm mb,
      kvs !! i = Some (nm, mb) ->
      exists n : nat,
        (n < fuel)%nat /\
        lookup_path (entries map') (sub (allocated map) 1) nm n
          (hash32 pystr_hash nm)
          (Z.land (hash32 pystr_hash nm) (sub (allocated map) 1))
          {| name := Some nm; member := Some mb;
             index := member_count map + Z.of_nat i |}.
Proof.
  induction kvs as [|[nm0 mb0] rest IH];
    intros map map' log Ht Hf Hocc Hc0 Hc Hnd Hfresh Hnew i nm mb Hi.
  - discriminate.
  - cbn [length] in Hocc, Hc.
    destruct (insert_member_returns pystr_hash k map fuel nm0 mb0 Ht)
      as (slot & Hv & Hins); [|exact Hf|].
    { apply vacant_exists. destruct Ht as (_ & _ & ->). lia. }
    pose proof (occupied_entries_insert (entries map) slot
                  {| name := Some nm0; member := Some mb0;
                     index := member_count map |} Hv eq_refl) as Hperm.
    assert (member_count (store map slot nm0 mb0) = member_count map + 1)
      as Hcnt.
    { cbn [store member_count]. unfold add, u32. apply Z.mod_small. lia. }
    destruct (new_loop_builds rest (store map slot nm0 mb0))
      as (map1 & Hnew1 & _ & _ & _ & Hpath).
    { apply store_pow2_table. exact Ht. }
    { exact Hf. }
    { cbn [store entries]. rewrite Hperm. cbn [length]. lia. }
    { lia. }
    { lia. }
    cbn [typed_items List.map new_loop PyString_Check Member_Check fst snd]
      in Hnew.
    rewrite Hins in Hnew. cbn [bind] in Hnew. fold (typed_items rest) in Hnew.
    rewrite Hnew1 in Hnew. injection Hnew as <- _.
    cbn [fmap list_fmap fst] in Hnd. apply NoDup_cons in Hnd as [Hnotin Hnd].
    destruct i as [|i].
    + cbn in Hi. injection Hi as <- <-.
      unfold insert_member in Hins.
      destruct (insert_loop_path _ _ _ _ _ _ _ _ _ Hins) as (n & Hn & Hp).
      { apply Hfresh. cbn. left. }
      exists n. split; [exact Hn|]. rewrite Z.add_0_r. apply Hpath, Hp.
    + cbn in Hi. rewrite Nat2Z.inj_succ.
      replace (member_count map + Z.succ (Z.of_nat i))
        with (member_count (store map slot nm0 mb0) + Z.of_nat i) by lia.
      apply (IH (store map slot nm0 mb0) map1 (increfs rest)); try assumption.
      * apply store_pow2_table. exact Ht.
      * cbn [store entries]. rewrite Hperm. cbn [length]. lia.
      * lia.
      * lia.
      * intros nm' Hin Hst. apply stored_occupied in Hst.
        destruct Hst as (e & He & Hne). cbn [store entries] in He.
        rewrite Hperm in He. apply elem_of_cons in He. destruct He as [->|He].
        -- cbn in Hne. injection Hne as <-. exact (Hnotin Hin).
        -- apply (Hfresh nm'); [cbn; right; exact Hin|].
           apply stored_occupied. exists e. split; assumption.
Qed.

(** A well-typed prefix is stored before the rest of the dict is looked
    at. *)
Lemma new_loop_app pre :
  forall map map1 log1 tail,
    new_loop pystr_hash fuel map (typed_items pre) = Done ((map1, None), log1) ->
    new_loop pystr_hash fuel map (typed_items pre ++ tail)
    = match new_loop pystr_hash fuel map1 tail with
      | Done (r, log2) => Done (r, log1 ++ log2)
      | Diverge => Diverge
      | Fault => Fault
      end.
Proof.
  induction pre as [|[nm mb] pre IH]; intros map map1 log1 tail H.
  - cbn in H. injection H as <- <-. cbn [typed_items List.map app].
    destruct (new_loop pystr_hash fuel map tail) as [[r log2]| |]; reflexivity.
  - cbn [typed_items List.map new_loop PyString_Check Member_Check fst snd app]
      in H |- *.
    fold (typed_items pre) in H |- *.
    destruct (insert_member pystr_hash fuel map nm mb) as [[m0 l0]| |];
      [|discriminate|discriminate].
    cbn [bind] in H |- *.
    destruct (new_loop pystr_hash fuel m0 (typed_items pre))
      as [[[m2 o2] l2]| |] eqn:Hpre; [|discriminate|discriminate].
    injection H as -> -> <-.
    rewrite (IH m0 map1 l2 tail Hpre).
    destruct (new_loop pystr_hash fuel map1 tail) as [[r log2]| |];
      [|reflexivity|reflexivity].
    rewrite app_assoc. reflexivity.
Qed.

(** A dict with more well-typed pairs in front than the table has free
    slots: the construction does not get past them, whatever the step
    budget. *)
Lemma new_loop_overflows pre :
  forall map tail,
    pow2_table k map ->
    (2 ^ k < length (occupied_entries (entries map)) + length pre)%nat ->
    new_loop pystr_hash fuel map (typed_items pre ++ tail) = Diverge.
Proof.
  induction pre as [|[nm mb] rest IH]; intros map tail Ht Hocc.
  - exfalso. pose proof (occupied_entries_length (entries map)).
    destruct Ht as (_ & _ & Hl). cbn [length] in Hocc. lia.
  - cbn [typed_items List.map app new_loop PyString_Check Member_Check fst snd].
    fold (typed_items rest).
    destruct (insert_member pystr_hash fuel map nm mb) as [[map' log]| |]
      eqn:Hins.
    + unfold insert_member in Hins.
      destruct (insert_loop_Done _ _ _ _ _ _ _ _ _ Hins)
        as (slot & Hv & -> & ->).
      cbn [bind]. rewrite IH; [reflexivity|apply store_pow2_table, Ht|].
      cbn [store entries].
      rewrite (occupied_entries_insert (entries map) slot
                 {| name := Some nm; member := Some mb;
                    index := member_count map |} Hv eq_refl).
      cbn [length] in Hocc |- *. lia.
    + reflexivity.
    + exfalso. unfold insert_member in Hins.
      rewrite (pow2_table_mask k map Ht) in Hins.
      destruct Ht as (Hk & _ & Hl).
      apply (insert_loop_no_fault k map nm mb fuel _ _ ltac:(lia) Hl) in Hins;
        [exact Hins|].
      rewrite (land_mask k ltac:(lia)). apply Z.mod_pos_bound.
      apply Z.pow_pos_nonneg; lia.
Qed.

End Build.

(** ** The table [ClassMap_new] starts from *)

Lemma occupied_entries_replicate (n : nat) :
  occupied_entries (replicate n zero_entry) = [].
Proof. induction n as [|n IH]; [reflexivity|exact IH]. Qed.

Lemma fresh_table_not_stored self cap nm :
  ~ stored (entries (fresh_table self cap)) nm.
Proof.
  intros (e & He & Hne). cbn [fresh_table entries] in He.
  apply elem_of_replicate in He as [-> _]. discriminate.
Qed.

Lemma u32_small x : 0 <= x < 2 ^ 30 -> u32 x = x.
Proof.
  intros H. apply Z.mod_small. change (2 ^ 30) with 1073741824 in H.
  change modulus with 4294967296. lia.
Qed.

Lemma typed_items_length kvs : length (typed_items kvs) = length kvs.
Proof. unfold typed_items. apply length_map. Qed.

Lemma fresh_table_ready (n : Z) :
  0 <= n < 2 ^ 30 ->
  exists k : nat,
    (2 <= k <= 31)%nat
    /\ planned_capacity (u32 n) = 2 ^ Z.of_nat k
    /\ 4 * n <= 3 * 2 ^ Z.of_nat k
    /\ pow2_table k (fresh_table generic_new (planned_capacity (u32 n))).
Proof.
  intros Hn. rewrite (u32_small n Hn).
  destruct (planned_capacity_pow2 n Hn) as (k & Hk & Hcap & Hload).
  exists k. split; [exact Hk|]. split; [exact Hcap|]. split; [lia|].
  unfold pow2_table. cbn [fresh_table entries allocated].
  split; [lia|]. split; [exact Hcap|].
  rewrite length_replicate, Hcap, <- pow2_of_nat, Nat2Z.id. reflexivity.
Qed.

(** The table planned for [len] entries has room for [m <= len] of them,
    and [member_count] runs no risk of wrapping around. *)
Lemma fresh_table_room (len m k : nat) cap :
  Z.of_nat len < 2 ^ 30 -> (m <= len)%nat ->
  4 * Z.of_nat len <= 3 * 2 ^ Z.of_nat k ->
  (length (occupied_entries (entries (fresh_table generic_new cap))) + m
   < 2 ^ k)%nat
  /\ 0 <= member_count (fresh_table generic_new cap)
  /\ member_count (fresh_table generic_new cap) + Z.of_nat m < modulus.
Proof.
  intros Hlen Hm Hload. cbn [fresh_table generic_new entries member_count].
  rewrite occupied_entries_replicate. cbn [length].
  pose proof (pow2_of_nat k).
  assert (0 < 2 ^ Z.of_nat k) by (apply Z.pow_pos_nonneg; lia).
  change (2 ^ 30) with 1073741824 in Hlen. change modulus with 4294967296.
  lia.
Qed.

(** ** Dicts of 2^30 entries and more

    [count * 4] no longer fits [uint32_t]. *)

Lemma wrapped_capacity_4 : planned_capacity (u32 (2 ^ 30 + 3)) = 4.
Proof. reflexivity. Qed.

Lemma wrapped_capacity_31 : planned_capacity (u32 (2 ^ 31 - 1)) = 2 ^ 31.
Proof. reflexivity. Qed.

Lemma fresh_table_pow2 (k : nat) :
  (k <= 31)%nat ->
  pow2_table k (fresh_table generic_new (2 ^ Z.of_nat k)).
Proof.
  intros Hk. unfold pow2_table. cbn [fresh_table entries allocated].
  split; [exact Hk|]. split; [reflexivity|].
  rewrite length_replicate, <- pow2_of_nat, Nat2Z.id. reflexivity.
Qed.

(** A dict of 2^30 + 3 pairs: once the first four of them are stored,
    the four slots allocated are all taken. *)
Lemma wrapped_table_fills pystr_hash
    (kvs : list (PyStringObject * Member)) (fuel : nat) :
  Z.of_nat (length kvs) = 2 ^ 30 + 3 ->
  (probe_budget 4 <= fuel)%nat ->
  exists map,
    new_loop pystr_hash fuel
      (fresh_table generic_new
         (planned_capacity (u32 (Z.of_nat (length kvs)))))
      (typed_items (take 4 kvs))
    = Done ((map, None), increfs (take 4 kvs))
    /\ allocated map = 4
    /\ member_count map = 4
    /\ ~ member_count map <= allocated map * 3 / 4.
Proof.
  intros Hlen Hf. rewrite Hlen, wrapped_capacity_4.
  assert (length (take 4 kvs) = 4%nat) as H4.
  { rewrite length_take. change (2 ^ 30) with 1073741824 in Hlen. lia. }
  destruct (new_loop_fills pystr_hash 2 fuel (take 4 kvs)
              (fresh_table generic_new 4) (fresh_table_pow2 2 ltac:(lia)))
    as (map & Hnew & Ht & Hcnt & _).
  - exact Hf.
  - cbn [fresh_table entries]. rewrite occupied_entries_replicate, H4.
    reflexivity.
  - cbn [fresh_table generic_new member_count]. lia.
  - cbn [fresh_table generic_new member_count]. rewrite H4. reflexivity.
  - exists map. split; [exact Hnew|].
    cbn [fresh_table generic_new member_count] in Hcnt. rewrite H4 in Hcnt.
    destruct Ht as (_ & Ha & _). rewrite Ha, Hcnt.
    split; [reflexivity|]. split; [reflexivity|].
    intros H. vm_compute in H. apply H. reflexivity.
Qed.

Lemma unary_name_length i : String.length (unary_name i) = i.
Proof. induction i as [|i IH]; [reflexivity|cbn; rewrite IH; reflexivity]. Qed.

Lemma numbered_dict_length start n : length (numbered_dict start n) = n.
Proof. unfold numbered_dict. rewrite length_fmap. apply length_seq. Qed.

Lemma numbered_dict_NoDup start n : NoDup (numbered_dict start n).*1.
Proof.
  unfold numbered_dict. rewrite <- list_fmap_compose.
  apply NoDup_fmap_2; [|apply NoDup_seq].
  intros i j Hij. cbn in Hij.
  rewrite <- (unary_name_length i), <- (unary_name_length j), Hij.
  reflexivity.
Qed.

Section Constructed.

Variable pystr_hash : PyStringObject -> Z.

(** What [ClassMap_new] returns for a dict of strings and members. *)
Lemma ClassMap_new_typed fuel kvs :
  Z.of_nat (length kvs) < 2 ^ 30 ->
  (probe_budget (planned_capacity (u32 (Z.of_nat (length kvs)))) <= fuel)%nat ->
  exists (k : nat) (map : ClassMap),
    planned_capacity (u32 (Z.of_nat (length kvs))) = 2 ^ Z.of_nat k
    /\ 4 * Z.of_nat (length kvs) <= 3 * 2 ^ Z.of_nat k
    /\ pow2_table k
         (fresh_table generic_new
            (planned_capacity (u32 (Z.of_nat (length kvs)))))
    /\ new_loop pystr_hash fuel
         (fresh_table generic_new
            (planned_capacity (u32 (Z.of_nat (length kvs)))))
         (typed_items kvs)
       = Done ((map, None), increfs kvs)
    /\ ClassMap_new pystr_hash fuel true true
         (Some (ArgDict (typed_items kvs)))
       = Done (Returned map, increfs kvs)
    /\ pow2_table k map
    /\ member_count map = Z.of_nat (length kvs)
    /\ occupied_entries (entries map) ≡ₚ entries_of 0 kvs.
Proof.
  intros Hn Hf.
  destruct (fresh_table_ready (Z.of_nat (length kvs)))
    as (k & Hk & Hcap & Hload & Ht); [lia|].
  set (cap := planned_capacity (u32 (Z.of_nat (length kvs)))) in *.
  destruct (fresh_table_room (length kvs) (length kvs) k cap Hn (le_n _) Hload)
    as (Hocc & Hc0 & Hcm).
  destruct (new_loop_builds pystr_hash k fuel kvs (fresh_table generic_new cap)
              Ht Hf Hocc Hc0 Hcm)
    as (map & Hnew & Ht' & Hcnt & Hperm & _).
  cbn [fresh_table generic_new entries member_count] in Hcnt, Hperm.
  rewrite occupied_entries_replicate in Hperm. cbn [app] in Hperm.
  exists k, map.
  split; [exact Hcap|]. split; [exact Hload|]. split; [exact Ht|].
  split; [exact Hnew|]. split; [|split; [exact Ht'|split; [lia|exact Hperm]]].
  unfold ClassMap_new. cbn [negb]. rewrite typed_items_length.
  fold cap. rewrite Hnew. cbn [bind ret]. rewrite app_nil_r. reflexivity.
Qed.

(** The built table keeps a free slot. *)
Lemma built_table_vacant (k : nat) map kvs :
  pow2_table k map ->
  4 * Z.of_nat (length kvs) <= 3 * 2 ^ Z.of_nat k ->
  occupied_entries (entries map) ≡ₚ entries_of 0 kvs ->
  exists slot, vacant (entries map) slot.
Proof.
  intros (_ & _ & Hlen) Hload Hperm.
  apply vacant_exists. rewrite Hperm, entries_of_length, Hlen.
  pose proof (pow2_of_nat k).
  assert (0 < 2 ^ Z.of_nat k) by (apply Z.pow_pos_nonneg; lia). lia.
Qed.

End Constructed.

(** ** ClassMap_clear *)

Lemma clear_entry_idem e : clear_entry (clear_entry e) = clear_entry e.
Proof. unfold clear_entry. destruct (name e) eqn:Hn; [reflexivity|]. rewrite Hn. reflexivity. Qed.

Lemma clear_entry_name e : name (clear_entry e) = None.
Proof. unfold clear_entry. destruct (name e) eqn:Hn; [reflexivity|exact Hn]. Qed.

Lemma referents_clear_entry e : referents (clear_entry e) = [].
Proof. unfold referents. rewrite clear_entry_name. reflexivity. Qed.

Lemma clear_loop_spec (todo : nat) :
  forall (n : nat) base,
    (n + todo = length base)%nat ->
    Z.of_nat (length base) < modulus ->
    clear_loop todo (Z.of_nat n) base
    = Done (take n base ++ (clear_entry <$> drop n base),
            Decref <$> all_referents (drop n base)).
Proof.
  induction todo as [|todo IH]; intros n base Hlen Hmod.
  - rewrite drop_ge, take_ge by lia. cbn. rewrite app_nil_r. reflexivity.
  - destruct (lookup_lt_is_Some_2 base n) as [e He]; [lia|].
    assert (add (Z.of_nat n) 1 = Z.of_nat (Datatypes.S n)) as Hnext.
    { unfold add, u32. rewrite Z.mod_small; lia. }
    cbn [clear_loop]. rewrite Nat2Z.id, He, Hnext.
    rewrite (drop_S _ _ _ He). unfold all_referents.
    cbn [fmap list_fmap List.flat_map].
    destruct (name e) as [nm|] eqn:Hn.
    + set (c := {| name := None; member := None; index := index e |}).
      assert (clear_entry e = c) as -> by (unfold clear_entry; rewrite Hn; reflexivity).
      assert (clear_loop todo (Z.of_nat (Datatypes.S n)) (<[n := c]> base)
              = Done (take n base ++ c :: (clear_entry <$> drop (Datatypes.S n) base),
                      Decref <$> all_referents (drop (Datatypes.S n) base)))
        as Hrec.
      { rewrite IH by (rewrite length_insert; lia).
        rewrite (take_S_r _ _ c)
          by (apply list_lookup_insert_eq; eapply lookup_lt_Some; eauto).
        rewrite take_insert_ge, drop_insert_lt by lia.
        rewrite <- app_assoc. reflexivity. }
      unfold referents. rewrite Hn.
      destruct (member e) as [mb|]; cbn; fold c; rewrite Hrec; reflexivity.
    + assert (clear_entry e = e) as -> by (unfold clear_entry; rewrite Hn; reflexivity).
      rewrite IH by lia. rewrite (take_S_r _ _ _ He), <- app_assoc.
      unfold referents. rewrite Hn. reflexivity.
Qed.

Lemma ClassMap_clear_spec self :
  array_ok self ->
  ClassMap_clear self
  = Done (cleared self, Decref <$> all_referents (entries self)).
Proof.
  intros [Hlen Hmod]. unfold ClassMap_clear.
  change 0 with (Z.of_nat 0).
  rewrite clear_loop_spec by lia.
  cbn [bind ret take drop app]. rewrite app_nil_r. reflexivity.
Qed.

Lemma cleared_array_ok self : array_ok self -> array_ok (cleared self).
Proof.
  intros [Hlen Hmod]. split; cbn [cleared entries allocated];
    [rewrite length_fmap|]; assumption.
Qed.

Lemma all_referents_cleared self : all_referents (entries (cleared self)) = [].
Proof.
  cbn [cleared entries]. unfold all_referents.
  induction (entries self) as [|e l IH]; [reflexivity|].
  cbn [fmap list_fmap List.flat_map]. rewrite referents_clear_entry.
  exact IH.
Qed.

Lemma cleared_idem self : cleared (cleared self) = cleared self.
Proof.
  unfold cleared. cbn [entries allocated member_count]. f_equal.
  rewrite <- list_fmap_compose. apply list_fmap_ext.
  intros i e _. apply clear_entry_idem.
Qed.

(** ** ClassMap_traverse *)

Section TraverseFacts.

Context {VS : Type}.
Variable visit : PyObject -> VS -> Z * VS.

Lemma traverse_loop_spec (todo : nat) :
  forall (n : nat) base s,
    (n + todo = length base)%nat ->
    Z.of_nat (length base) < modulus ->
    exists v seen,
      traverse_loop visit todo (Z.of_nat n) base s
      = Done (v, visited visit s seen, seen)
      /\ seen `prefix_of` all_referents (drop n base)
      /\ (v = 0 -> seen = all_referents (drop n base))
      /\ ((forall o s', fst (visit o s') = 0) -> v = 0).
Proof.
  induction todo as [|todo IH]; intros n base s Hlen Hmod.
  - exists 0, []. rewrite drop_ge by lia. cbn.
    split; [reflexivity|]. split; [apply prefix_nil|]. auto.
  - destruct (lookup_lt_is_Some_2 base n) as [e He]; [lia|].
    assert (add (Z.of_nat n) 1 = Z.of_nat (Datatypes.S n)) as Hnext.
    { unfold add, u32. rewrite Z.mod_small; lia. }
    cbn [traverse_loop]. rewrite Nat2Z.id, He, Hnext.
    rewrite (drop_S _ _ _ He). unfold all_referents.
    cbn [List.flat_map]. fold (all_referents (drop (Datatypes.S n) base)).
    unfold referents.
    assert (forall s0, exists v seen,
              traverse_loop visit todo (Z.of_nat (Datatypes.S n)) base s0
              = Done (v, visited visit s0 seen, seen)
              /\ seen `prefix_of` all_referents (drop (Datatypes.S n) base)
              /\ (v = 0 -> seen = all_referents (drop (Datatypes.S n) base))
              /\ ((forall o s', fst (visit o s') = 0) -> v = 0)) as Hrest
      by (intros s0; apply IH; lia).
    destruct (name e) as [nm|]; [|apply Hrest].
    cbn [fmap option_fmap option_map Py_VISIT].
    destruct (visit (PyStr nm) s) as [v1 s1] eqn:Hv1.
    destruct (v1 =? 0) eqn:Hz1.
    2:{ exists v1, [PyStr nm]. cbn [visited foldl]. rewrite Hv1. cbn [snd].
        split; [reflexivity|]. split; [|split].
        - apply prefix_cons, prefix_nil.
        - intros ->. discriminate.
        - intros Hok. specialize (Hok (PyStr nm) s). rewrite Hv1 in Hok.
          cbn in Hok. subst v1. discriminate. }
    destruct (member e) as [mb|].
    + cbn [fmap option_fmap option_map Py_VISIT].
      destruct (visit (PyMember mb) s1) as [v2 s2] eqn:Hv2.
      destruct (v2 =? 0) eqn:Hz2.
      2:{ exists v2, [PyStr nm; PyMember mb]. cbn [visited foldl seen].
          rewrite Hv1. cbn [snd]. rewrite Hv2. cbn [snd].
          split; [reflexivity|]. split; [|split].
          - cbn [app]. do 2 apply prefix_cons. apply prefix_nil.
          - intros ->. discriminate.
          - intros Hok. specialize (Hok (PyMember mb) s1). rewrite Hv2 in Hok.
            cbn in Hok. subst v2. discriminate. }
      destruct (Hrest s2) as (v & sn & Hr & Hpre & Hall & Hok).
      exists v, (PyStr nm :: PyMember mb :: sn). rewrite Hr.
      cbn [visited foldl seen]. rewrite Hv1. cbn [snd]. rewrite Hv2. cbn [snd].
      split; [reflexivity|]. split; [|split].
      * cbn [app]. do 2 apply prefix_cons. exact Hpre.
      * intros Hv. cbn [app]. rewrite (Hall Hv). reflexivity.
      * exact Hok.
    + cbn [fmap option_fmap option_map Py_VISIT].
      destruct (Hrest s1) as (v & sn & Hr & Hpre & Hall & Hok).
      exists v, (PyStr nm :: sn). rewrite Hr.
      cbn [visited foldl seen]. rewrite Hv1. cbn [snd].
      split; [reflexivity|]. split; [|split].
      * cbn [app]. apply prefix_cons. exact Hpre.
      * intros Hv. cbn [app]. rewrite (Hall Hv). reflexivity.
      * exact Hok.
Qed.

Lemma ClassMap_traverse_spec self s :
  array_ok self ->
  exists v seen,
    ClassMap_traverse visit self s = Done (v, visited visit s seen, seen)
    /\ seen `prefix_of` all_referents (entries self)
    /\ (v = 0 -> seen = all_referents (entries self))
    /\ ((forall o s', fst (visit o s') = 0) -> v = 0).
Proof.
  intros [Hlen Hmod]. unfold ClassMap_traverse.
  change 0 with (Z.of_nat 0) at 1.
  apply (traverse_loop_spec (Z.to_nat (allocated self)) 0 (entries self) s);
    lia.
Qed.

(** The traversal hands over the keys and values of the occupied slots
    from the first on, and stops at the first non-zero answer. *)
Lemma traverse_loop_exact (todo : nat) :
  forall (n : nat) base s,
    (n + todo = length base)%nat ->
    Z.of_nat (length base) < modulus ->
    traverse_loop visit todo (Z.of_nat n) base s
    = Done (visit_until visit s (all_referents (drop n base))).
Proof.
  induction todo as [|todo IH]; intros n base s Hlen Hmod.
  - rewrite drop_ge by lia. reflexivity.
  - destruct (lookup_lt_is_Some_2 base n) as [e He]; [lia|].
    assert (add (Z.of_nat n) 1 = Z.of_nat (Datatypes.S n)) as Hnext.
    { unfold add, u32. rewrite Z.mod_small; lia. }
    cbn [traverse_loop]. rewrite Nat2Z.id, He, Hnext.
    rewrite (drop_S _ _ _ He). unfold all_referents.
    cbn [List.flat_map]. fold (all_referents (drop (Datatypes.S n) base)).
    unfold referents.
    destruct (name e) as [nm|]; [|apply IH; lia].
    cbn [fmap option_fmap option_map Py_VISIT app visit_until].
    destruct (visit (PyStr nm) s) as [v1 s1].
    destruct (v1 =? 0); [|reflexivity].
    destruct (member e) as [mb|];
      cbn [fmap option_fmap option_map Py_VISIT app visit_until].
    + destruct (visit (PyMember mb) s1) as [v2 s2].
      destruct (v2 =? 0); [|reflexivity].
      rewrite IH by lia.
      destruct (visit_until visit s2 (all_referents (drop (Datatypes.S n) base)))
        as [[v s'] l]. reflexivity.
    + rewrite IH by lia.
      destruct (visit_until visit s1 (all_referents (drop (Datatypes.S n) base)))
        as [[v s'] l]. reflexivity.
Qed.

Lemma ClassMap_traverse_exact self s :
  array_ok self ->
  ClassMap_traverse visit self s
  = Done (visit_until visit s (all_referents (entries self))).
Proof.
  intros [Hlen Hmod]. unfold ClassMap_traverse.
  change 0 with (Z.of_nat 0) at 1.
  apply (traverse_loop_exact (Z.to_nat (allocated self)) 0 (entries self) s);
    lia.
Qed.

(** What [visit_until] returns: a prefix of the objects; when the answer
    is 0, all of them, each answered 0; when it is not, the objects up to
    the first that was not answered 0, and the answer is the one given on
    that object. *)
Lemma visit_until_stops s os :
  exists v seen,
    visit_until visit s os = (v, visited visit s seen, seen)
    /\ seen `prefix_of` os
    /\ (v = 0 -> seen = os /\ answers_zero visit s seen)
    /\ (v <> 0 ->
        exists pre o,
          seen = pre ++ [o] /\ answers_zero visit s pre
          /\ fst (visit o (visited visit s pre)) = v)
    /\ ((forall o s', fst (visit o s') = 0) -> v = 0).
Proof.
  revert s. induction os as [|o os IH]; intros s.
  - exists 0, []. cbn. split; [reflexivity|]. split; [apply prefix_nil|].
    split; [auto|]. split; [intros H; contradiction|auto].
  - cbn [visit_until]. destruct (visit o s) as [v1 s1] eqn:Hv1.
    destruct (v1 =? 0) eqn:Hz.
    + apply Z.eqb_eq in Hz. subst v1.
      destruct (IH s1) as (v & sn & Hr & Hpre & Hzero & Hstop & Hok).
      exists v, (o :: sn). rewrite Hr. cbn [visited foldl]. rewrite Hv1.
      cbn [snd]. split; [reflexivity|]. split; [apply prefix_cons, Hpre|].
      split; [|split; [|exact Hok]].
      * intros Hv. destruct (Hzero Hv) as [-> Haz].
        split; [reflexivity|]. cbn [answers_zero]. rewrite Hv1. cbn. auto.
      * intros Hv. destruct (Hstop Hv) as (pre & o' & -> & Haz & Hans).
        exists (o :: pre), o'. split; [reflexivity|]. split.
        -- cbn [answers_zero]. rewrite Hv1. cbn. auto.
        -- cbn [visited foldl]. rewrite Hv1. cbn [snd]. exact Hans.
    + apply Z.eqb_neq in Hz. exists v1, [o]. cbn [visited foldl].
      rewrite Hv1. cbn [snd]. split; [reflexivity|].
      split; [apply prefix_cons, prefix_nil|].
      split; [intros ->; contradiction|]. split.
      * intros _. exists [], o. cbn. rewrite Hv1. auto.
      * intros Hok. specialize (Hok o s). rewrite Hv1 in Hok. exact Hok.
Qed.

End TraverseFacts.

(** ** Tearing down a partly built table *)

Lemma all_referents_occupied base :
  all_referents (occupied_entries base) = all_referents base.
Proof.
  unfold all_referents, occupied_entries.
  induction base as [|e base IH]; [reflexivity|].
  cbn [List.filter List.flat_map]. unfold is_occupied at 1, referents at 2.
  destruct (name e) eqn:Hn.
  - cbn [List.flat_map]. rewrite IH. unfold referents at 1. rewrite Hn.
    reflexivity.
  - exact IH.
Qed.

Lemma decrefs_entries_of c0 kvs :
  Decref <$> all_referents (entries_of c0 kvs) = decrefs kvs.
Proof.
  revert c0. induction kvs as [|kv kvs IH]; intros c0; [reflexivity|].
  cbn [entries_of]. unfold all_referents, decrefs.
  cbn [List.flat_map]. unfold referents at 1. cbn [name member].
  cbn [app fmap list_fmap]. do 2 f_equal. apply IH.
Qed.

Lemma pow2_table_array_ok k map : pow2_table k map -> array_ok map.
Proof.
  intros (Hk & Ha & Hl). split.
  - rewrite Hl, Ha. apply pow2_of_nat.
  - rewrite Ha. apply Z.lt_le_trans with (2 ^ 32); [|reflexivity].
    apply Z.pow_lt_mono_r; lia.
Qed.

Lemma PyString_Check_Some o s : PyString_Check o = Some s -> o = PyStr s.
Proof. destruct o; cbn; congruence. Qed.

Lemma Member_Check_Some o m : Member_Check o = Some m -> o = PyMember m.
Proof. destruct o; cbn; congruence. Qed.

(** A dict with an ill-typed entry splits at the first of them. *)
Lemma first_offender items :
  (exists kv, kv ∈ items /\ ~ well_typed kv) ->
  exists pre key value rest,
    items = typed_items pre ++ (key, value) :: rest
    /\ ~ well_typed (key, value).
Proof.
  induction items as [|[key value] items IH]; intros (kv & Hin & Hbad).
  - inversion Hin.
  - destruct (PyString_Check key) as [nm|] eqn:Hk.
    + destruct (Member_Check value) as [mb|] eqn:Hv.
      * apply elem_of_cons in Hin. destruct Hin as [->|Hin].
        { exfalso. apply Hbad. split; cbn; [rewrite Hk|rewrite Hv]; eauto. }
        destruct IH as (pre & key' & value' & rest & -> & Hbad');
          [exists kv; auto|].
        exists ((nm, mb) :: pre), key', value', rest. split; [|exact Hbad'].
        cbn. rewrite (PyString_Check_Some _ _ Hk), (Member_Check_Some _ _ Hv).
        reflexivity.
      * exists [], key, value, items. split; [reflexivity|].
        intros [_ [m Hm]]. cbn in Hm. congruence.
    + exists [], key, value, items. split; [reflexivity|].
      intros [[s Hs] _]. cbn in Hs. congruence.
Qed.

Lemma new_loop_offender pystr_hash fuel map key value rest :
  ~ well_typed (key, value) ->
  new_loop pystr_hash fuel map ((key, value) :: rest)
  = Done ((map, Some (type_error key value)), []).
Proof.
  intros Hbad. cbn [new_loop]. unfold type_error.
  destruct (PyString_Check key) as [nm|] eqn:Hk; [|reflexivity].
  destruct (Member_Check value) as [mb|] eqn:Hv; [|reflexivity].
  exfalso. apply Hbad. split; cbn; [rewrite Hk|rewrite Hv]; eauto.
Qed.
Lemma traverse_loop_vacant {VS : Type} (visit : PyObject -> VS -> Z * VS)
    (todo : nat) :
  forall (n : nat) base s,
    (forall e, e ∈ base -> name e = None) ->
    (n + todo = length base)%nat ->
    Z.of_nat (length base) < modulus ->
    traverse_loop visit todo (Z.of_nat n) base s = Done (0, s, []).
Proof.
  induction todo as [|todo IH]; intros n base s Hvac Hlen Hmod.
  - reflexivity.
  - destruct (lookup_lt_is_Some_2 base n) as [e He]; [lia|].
    assert (add (Z.of_nat n) 1 = Z.of_nat (Datatypes.S n)) as Hnext.
    { unfold add, u32. rewrite Z.mod_small; lia. }
    cbn [traverse_loop]. rewrite Nat2Z.id, He, Hnext.
    rewrite (Hvac e) by (apply list_elem_of_lookup; eauto).
    apply IH; [exact Hvac|lia|exact Hmod].
Qed.

Lemma ClassMap_traverse_vacant {VS : Type}
    (visit : PyObject -> VS -> Z * VS) self s :
  array_ok self ->
  (forall e, e ∈ entries self -> name e = None) ->
  ClassMap_traverse visit self s = Done (0, s, []).
Proof.
  intros [Hlen Hmod] Hvac. unfold ClassMap_traverse.
  change 0 with (Z.of_nat 0) at 1.
  apply traverse_loop_vacant; [exact Hvac|lia|lia].
Qed.

(** * The claims *)

Section Claims.

Variable pystr_hash : PyStringObject -> Z.

(** C1 (round-trip).  For every dict of string keys and member values
    with pairwise distinct keys (and fewer than 2^30 entries, the range in
    which the [uint32_t] capacity computation is exact), [ClassMap_new]
    returns a table, built by one [insert_member] per pair, on which
    [ClassMap_LookupMember] of every inserted name writes exactly the
    member inserted with it and the index it received, which is its
    position in the dict's iteration order. *)
Theorem lookup_after_build_roundtrip
    (kvs : list (PyStringObject * Member)) (fuel fuel' : nat) :
  NoDup kvs.*1 ->
  Z.of_nat (length kvs) < 2 ^ 30 ->
  (probe_budget (planned_capacity (u32 (Z.of_nat (length kvs)))) <= fuel)%nat ->
  (probe_budget (planned_capacity (u32 (Z.of_nat (length kvs)))) <= fuel')%nat ->
  exists map,
    ClassMap_new pystr_hash fuel true true (Some (ArgDict (typed_items kvs)))
    = Done (Returned map, increfs kvs)
    /\ forall (i : nat) nm mb mo io,
         kvs !! i = Some (nm, mb) ->
         ClassMap_LookupMember pystr_hash fuel' map nm mo io
         = Done (Some mb, Z.of_nat i).
Proof.
  intros Hnd Hn Hf Hf'.
  destruct (ClassMap_new_typed pystr_hash fuel kvs Hn Hf)
    as (k & map & Hcap & Hload & Ht0 & Hloop & Hnew & Ht & Hc & Hperm).
  exists map. split; [exact Hnew|]. intros i nm mb mo io Hi.
  destruct (fresh_table_room (length kvs) (length kvs) k
              (planned_capacity (u32 (Z.of_nat (length kvs))))
              Hn (le_n _) Hload) as (Hocc & Hc0 & Hcm).
  destruct (new_loop_paths pystr_hash k fuel kvs _ map (increfs kvs)
              Ht0 Hf Hocc Hc0 Hcm Hnd
              (fun nm' _ => fresh_table_not_stored _ _ nm') Hloop i nm mb Hi)
    as (n & Hlt & Hpath).
  cbn [fresh_table generic_new allocated member_count] in Hpath.
  rewrite Z.add_0_l in Hpath.
  assert (allocated map = planned_capacity (u32 (Z.of_nat (length kvs))))
    as Ha by (destruct Ht as (_ & -> & _); symmetry; exact Hcap).
  destruct (lookup_member_returns pystr_hash k map fuel' nm mo io Ht)
    as (r & Hr).
  - exact (built_table_vacant k map kvs Ht Hload Hperm).
  - rewrite Ha. exact Hf'.
  - rewrite Hr. f_equal. unfold ClassMap_LookupMember in Hr.
    apply (lookup_loop_mono fuel' (Nat.max fuel fuel')) in Hr; [|lia].
    rewrite Ha in Hr.
    rewrite (lookup_path_found _ _ _ _ _ _ _ Hpath) in Hr by lia.
    injection Hr as <-. reflexivity.
Qed.

(** C2 (absence).  On the table [ClassMap_new] builds from a dict, the
    lookup of any name that is not among the dict's keys returns with the
    output locations as the caller left them: no descriptor is reported
    for it. *)
Theorem absent_name_not_found
    (kvs : list (PyStringObject * Member)) (fuel fuel' : nat) nm :
  Z.of_nat (length kvs) < 2 ^ 30 ->
  (probe_budget (planned_capacity (u32 (Z.of_nat (length kvs)))) <= fuel)%nat ->
  (probe_budget (planned_capacity (u32 (Z.of_nat (length kvs)))) <= fuel')%nat ->
  nm ∉ kvs.*1 ->
  exists map,
    ClassMap_new pystr_hash fuel true true (Some (ArgDict (typed_items kvs)))
    = Done (Returned map, increfs kvs)
    /\ forall mo io,
         ClassMap_LookupMember pystr_hash fuel' map nm mo io = Done (mo, io).
Proof.
  intros Hn Hf Hf' Hnm.
  destruct (ClassMap_new_typed pystr_hash fuel kvs Hn Hf)
    as (k & map & Hcap & Hload & _ & _ & Hnew & Ht & _ & Hperm).
  exists map. split; [exact Hnew|]. intros mo io.
  destruct (lookup_member_returns pystr_hash k map fuel' nm mo io Ht)
    as (r & Hr).
  - exact (built_table_vacant k map kvs Ht Hload Hperm).
  - destruct Ht as (_ & -> & _). rewrite <- Hcap. exact Hf'.
  - rewrite Hr. f_equal.
    destruct (lookup_loop_Done _ _ _ _ _ _ _ _ _ Hr)
      as [->|(e & He & Hne & _)]; [reflexivity|exfalso].
    assert (stored (entries map) nm) as Hst by (exists e; auto).
    apply stored_occupied in Hst. destruct Hst as (e' & He' & Hne').
    rewrite Hperm in He'. exact (Hnm (entries_of_names _ _ _ _ He' Hne')).
Qed.

(** The capacity planned for fewer than 2^30 entries.  There the
    capacity computed on [uint32_t] is next_power_of_two(ceil(max(n, 3) * 4
    / 3)), as C3 has it; it is 4 for three entries and for none. *)
Theorem planned_capacity_matches_plan n :
  0 <= n < 2 ^ 30 ->
  planned_capacity n = plan n
  /\ planned_capacity 3 = 4 /\ planned_capacity 0 = 4.
Proof.
  intros Hn. split; [apply planned_capacity_plan, Hn|].
  split; reflexivity.
Qed.

(** The load factor for fewer than 2^30 entries.  While [ClassMap_new]
    stores a dict of fewer than 2^30 pairs, after every pair stored, and
    so on return, [member_count <= allocated * 3 / 4] and [allocated] is a
    power of two, as C4 has it. *)
Theorem load_factor_invariant
    (kvs : list (PyStringObject * Member)) (fuel : nat) :
  Z.of_nat (length kvs) < 2 ^ 30 ->
  (probe_budget (planned_capacity (u32 (Z.of_nat (length kvs)))) <= fuel)%nat ->
  exists k : nat,
    planned_capacity (u32 (Z.of_nat (length kvs))) = 2 ^ Z.of_nat k
    /\ (forall j : nat, (j <= length kvs)%nat ->
         exists map log,
           new_loop pystr_hash fuel
             (fresh_table generic_new
                (planned_capacity (u32 (Z.of_nat (length kvs)))))
             (typed_items (take j kvs))
           = Done ((map, None), log)
           /\ member_count map = Z.of_nat j
           /\ allocated map = 2 ^ Z.of_nat k
           /\ member_count map <= allocated map * 3 / 4)
    /\ (exists map log,
         ClassMap_new pystr_hash fuel true true
           (Some (ArgDict (typed_items kvs)))
         = Done (Returned map, log)
         /\ member_count map = Z.of_nat (length kvs)
         /\ allocated map = 2 ^ Z.of_nat k
         /\ member_count map <= allocated map * 3 / 4).
Proof.
  intros Hn Hf.
  destruct (ClassMap_new_typed pystr_hash fuel kvs Hn Hf)
    as (k & map & Hcap & Hload & Ht0 & _ & Hnew & Ht & Hc & _).
  exists k. split; [exact Hcap|].
  assert (0 < 2 ^ Z.of_nat k) as Hpos by (apply Z.pow_pos_nonneg; lia).
  split.
  - intros j Hj.
    destruct (fresh_table_room (length kvs) (length (take j kvs)) k
                (planned_capacity (u32 (Z.of_nat (length kvs)))) Hn)
      as (Hocc & Hc0 & Hcm); [rewrite length_take; lia|exact Hload|].
    destruct (new_loop_builds pystr_hash k fuel (take j kvs) _
                Ht0 Hf Hocc Hc0 Hcm) as (mapj & Hnewj & Htj & Hcj & _).
    exists mapj, (increfs (take j kvs)). split; [exact Hnewj|].
    cbn [fresh_table generic_new member_count] in Hcj.
    rewrite length_take in Hcj.
    destruct Htj as (_ & Ha & _). rewrite Ha.
    split; [lia|]. split; [reflexivity|].
    apply Z.div_le_lower_bound; lia.
  - exists map, (increfs kvs). split; [exact Hnew|].
    split; [exact Hc|]. destruct Ht as (_ & Ha & _). rewrite Ha.
    split; [reflexivity|]. apply Z.div_le_lower_bound; lia.
Qed.

(** C5 (termination of the probe loops).  On every table of [2^k] slots
    with a free slot, and for every name, the loop of [insert_member]
    leaves by storing the pair in a free slot and the loop of
    [ClassMap_LookupMember] leaves at a free slot or at an entry whose key
    is the name, both within [8 + allocated] iterations. *)
Theorem probe_loops_terminate (k : nat) map (fuel : nat) nm mb mo io :
  pow2_table k map ->
  (exists slot, vacant (entries map) slot) ->
  (probe_budget (allocated map) <= fuel)%nat ->
  (exists slot,
     vacant (entries map) slot /\
     insert_member pystr_hash fuel map nm mb
     = Done (store map slot nm mb, [Incref (PyStr nm); Incref (PyMember mb)]))
  /\ (exists r,
       ClassMap_LookupMember pystr_hash fuel map nm mo io = Done r
       /\ (r = (mo, io)
           \/ exists e,
                e ∈ entries map /\ name e = Some nm
                /\ r = (member e, index e))).
Proof.
  intros Ht Hv Hf. split.
  - exact (insert_member_returns pystr_hash k map fuel nm mb Ht Hv Hf).
  - destruct (lookup_member_returns pystr_hash k map fuel nm mo io Ht Hv Hf)
      as (r & Hr).
    exists r. split; [exact Hr|]. exact (lookup_loop_Done _ _ _ _ _ _ _ _ _ Hr).
Qed.

(** C6, as amended.  Once [hash >>= 5] has used up the 32-bit hash, that
    is from the eighth bucket of the sequence on, any [2^k] consecutive
    buckets on a table of [2^k] slots are pairwise different and between
    them visit every slot. *)
Theorem probe_sequence_tail_permutes (k : nat) hash (s : nat) :
  (k <= 31)%nat -> in_range hash -> (7 <= s)%nat ->
  (forall i j : nat,
     (i < j < 2 ^ k)%nat ->
     probe_bucket (2 ^ Z.of_nat k - 1) hash (s + i)
     <> probe_bucket (2 ^ Z.of_nat k - 1) hash (s + j))
  /\ (forall slot,
       0 <= slot < 2 ^ Z.of_nat k ->
       exists i : nat,
         (i < 2 ^ k)%nat
         /\ probe_bucket (2 ^ Z.of_nat k - 1) hash (s + i) = slot).
Proof.
  intros Hk Hh Hs.
  assert (0 <= probe_bucket (2 ^ Z.of_nat k - 1) hash s < 2 ^ Z.of_nat k)
    as Hr by (apply probe_bucket_range; lia).
  split.
  - intros i j Hij Heq.
    rewrite !probe_bucket_from in Heq by (trivial || lia).
    pose proof (orbit_NoDup k _ Hr) as Hnd.
    assert (i = j); [|lia].
    apply (proj1 (NoDup_alt _) Hnd i j
             (Nat.iter i (lcg (2 ^ Z.of_nat k))
                (probe_bucket (2 ^ Z.of_nat k - 1) hash s))).
    + apply orbit_lookup. lia.
    + rewrite Heq. apply orbit_lookup. lia.
  - intros slot Hslot.
    destruct (lcg_covers k _ slot Hr Hslot) as (i & Hi & Hit).
    exists i. split; [exact Hi|].
    rewrite probe_bucket_from by (trivial || lia). exact Hit.
Qed.

(** The type error for fewer than 2^30 entries.  When a dict of fewer
    than 2^30 entries holds an entry whose key is not a string or whose
    value is not a member, [ClassMap_new] (its allocations succeeding)
    raises the type error naming the offending object of the first such
    entry, as C7 has it; only the pairs before it were stored, the table
    holding them is destroyed, every reference taken being given back, and
    no table is returned. *)
Theorem construction_type_error (fuel : nat) items :
  (exists kv, kv ∈ items /\ ~ well_typed kv) ->
  Z.of_nat (length items) < 2 ^ 30 ->
  (probe_budget (planned_capacity (u32 (Z.of_nat (length items)))) <= fuel)%nat ->
  exists pre key value rest dlog,
    items = typed_items pre ++ (key, value) :: rest
    /\ ~ well_typed (key, value)
    /\ ClassMap_new pystr_hash fuel true true (Some (ArgDict items))
       = Done (Raised (type_error key value), increfs pre ++ dlog)
    /\ dlog ≡ₚ decrefs pre.
Proof.
  intros Hex Hn Hf.
  destruct (first_offender items Hex)
    as (pre & key & value & rest & Hitems & Hbad).
  assert (length pre < length items)%nat as Hpre.
  { rewrite Hitems, length_app, typed_items_length. cbn [length]. lia. }
  destruct (fresh_table_ready (Z.of_nat (length items)))
    as (k & Hk & Hcap & Hload & Ht0); [lia|].
  set (t0 := fresh_table generic_new
               (planned_capacity (u32 (Z.of_nat (length items))))) in *.
  destruct (fresh_table_room (length items) (length pre) k
              (planned_capacity (u32 (Z.of_nat (length items)))) Hn)
    as (Hocc & Hc0 & Hcm); [lia|exact Hload|].
  destruct (new_loop_builds pystr_hash k fuel pre t0 Ht0 Hf Hocc Hc0 Hcm)
    as (map1 & Hnew & Ht1 & _ & Hperm & _).
  unfold t0 in Hperm. cbn [fresh_table entries] in Hperm.
  rewrite occupied_entries_replicate in Hperm. cbn [app] in Hperm.
  exists pre, key, value, rest, (Decref <$> all_referents (entries map1)).
  split; [exact Hitems|]. split; [exact Hbad|]. split.
  - unfold ClassMap_new. cbn [negb]. fold t0. rewrite Hitems.
    rewrite (new_loop_app pystr_hash fuel pre t0 map1 (increfs pre) _ Hnew).
    rewrite (new_loop_offender pystr_hash fuel map1 key value rest Hbad).
    cbn [bind]. unfold PyObjectPtr_drop, ClassMap_dealloc.
    rewrite (ClassMap_clear_spec map1 (pow2_table_array_ok k map1 Ht1)).
    cbn [bind ret]. rewrite !app_nil_r. reflexivity.
  - rewrite <- (decrefs_entries_of 0 pre), <- all_referents_occupied.
    apply fmap_Permutation. unfold all_referents.
    apply Permutation_flat_map. exact Hperm.
Qed.

(** C8 (index density).  On the table built from a dict, the [index]
    fields of the occupied slots are, up to order, exactly
    0, 1, ..., member_count - 1, without repetition, and the pair at
    position [i] of the dict's iteration order is stored with index [i],
    whatever that order is. *)
Theorem index_density
    (kvs : list (PyStringObject * Member)) (fuel : nat) :
  Z.of_nat (length kvs) < 2 ^ 30 ->
  (probe_budget (planned_capacity (u32 (Z.of_nat (length kvs)))) <= fuel)%nat ->
  exists map,
    ClassMap_new pystr_hash fuel true true (Some (ArgDict (typed_items kvs)))
    = Done (Returned map, increfs kvs)
    /\ member_count map = Z.of_nat (length kvs)
    /\ occupied_indices (entries map) ≡ₚ seqZ 0 (member_count map)
    /\ NoDup (occupied_indices (entries map))
    /\ forall (i : nat) nm mb,
         kvs !! i = Some (nm, mb) ->
         {| name := Some nm; member := Some mb; index := Z.of_nat i |}
         ∈ entries map.
Proof.
  intros Hn Hf.
  destruct (ClassMap_new_typed pystr_hash fuel kvs Hn Hf)
    as (k & map & _ & _ & _ & _ & Hnew & _ & Hc & Hperm).
  exists map. split; [exact Hnew|]. split; [exact Hc|].
  assert (occupied_indices (entries map) ≡ₚ seqZ 0 (member_count map))
    as Hidx.
  { unfold occupied_indices. rewrite Hc, <- entries_of_index.
    change (List.map index ?l) with (index <$> l). rewrite Hperm.
    reflexivity. }
  split; [exact Hidx|]. split.
  - rewrite Hidx. apply NoDup_seqZ.
  - intros i nm mb Hi.
    pose proof (entries_of_lookup 0 kvs i nm mb Hi) as He.
    rewrite Z.add_0_l in He.
    assert ({| name := Some nm; member := Some mb; index := Z.of_nat i |}
            ∈ occupied_entries (entries map)) as Hin.
    { rewrite Hperm. apply list_elem_of_lookup. eauto. }
    unfold occupied_entries in Hin. apply list_elem_of_In in Hin.
    apply List.filter_In in Hin. apply list_elem_of_In, Hin.
Qed.

(** C9, as amended.  On every table state, [ClassMap_clear] releases the
    key and the value of every occupied slot and leaves every slot
    without key; a second [ClassMap_clear] changes nothing and releases
    nothing.  [ClassMap_traverse] hands the visitor, in slot order, the
    keys and values of the occupied slots up to and including the first
    object on which the visitor answers non-zero, and returns that answer:
    when it returns [v <> 0], the objects handed over are some objects
    answered 0 followed by one answered [v], and nothing after it is
    visited; when it returns 0, as it does whenever the visitor always
    answers 0, every answer was 0 and it has visited exactly the key and
    the value of every occupied slot.  On a cleared table it visits
    nothing. *)
Theorem clear_idempotent_traverse_coverage
    {VS : Type} (visit : PyObject -> VS -> Z * VS) self s :
  array_ok self ->
  ClassMap_clear self
  = Done (cleared self, Decref <$> all_referents (entries self))
  /\ (forall e, e ∈ entries (cleared self) -> name e = None)
  /\ ClassMap_clear (cleared self) = Done (cleared self, [])
  /\ ClassMap_traverse visit self s
     = Done (visit_until visit s (all_referents (entries self)))
  /\ (exists v seen,
        ClassMap_traverse visit self s = Done (v, visited visit s seen, seen)
        /\ seen `prefix_of` all_referents (entries self)
        /\ (v = 0 ->
            seen = all_referents (entries self) /\ answers_zero visit s seen)
        /\ (v <> 0 ->
            exists pre o,
              seen = pre ++ [o] /\ answers_zero visit s pre
              /\ fst (visit o (visited visit s pre)) = v)
        /\ ((forall o s', fst (visit o s') = 0) -> v = 0))
  /\ ClassMap_traverse visit (cleared self) s = Done (0, s, []).
Proof.
  intros Hok. split; [exact (ClassMap_clear_spec self Hok)|].
  split.
  { intros e He. cbn [cleared entries] in He.
    apply list_elem_of_fmap in He as (e0 & -> & _). apply clear_entry_name. }
  split.
  { rewrite (ClassMap_clear_spec _ (cleared_array_ok self Hok)).
    rewrite all_referents_cleared, cleared_idem. reflexivity. }
  split; [exact (ClassMap_traverse_exact visit self s Hok)|].
  split.
  { rewrite (ClassMap_traverse_exact visit self s Hok).
    destruct (visit_until_stops visit s (all_referents (entries self)))
      as (v & sn & -> & H).
    exists v, sn. split; [reflexivity|exact H]. }
  apply ClassMap_traverse_vacant; [exact (cleared_array_ok self Hok)|].
  intros e He. cbn [cleared entries] in He.
  apply list_elem_of_fmap in He as (e0 & -> & _). apply clear_entry_name.
Qed.

(** C10 (outputs on not-found).  On every table of [2^k] slots with a
    free slot, [ClassMap_LookupMember] returns; when the name is not
    stored the two output locations hold what the caller put there, and
    they hold anything else only as the member and index of an entry
    whose key is the name. *)
Theorem lookup_not_found_leaves_outputs
    (k : nat) map (fuel : nat) nm mo io :
  pow2_table k map ->
  (exists slot, vacant (entries map) slot) ->
  (probe_budget (allocated map) <= fuel)%nat ->
  exists r,
    ClassMap_LookupMember pystr_hash fuel map nm mo io = Done r
    /\ (~ stored (entries map) nm -> r = (mo, io))
    /\ (r <> (mo, io) ->
        exists e,
          e ∈ entries map /\ name e = Some nm /\ r = (member e, index e)).
Proof.
  intros Ht Hv Hf.
  destruct (lookup_member_returns pystr_hash k map fuel nm mo io Ht Hv Hf)
    as (r & Hr).
  exists r. split; [exact Hr|].
  destruct (lookup_loop_Done _ _ _ _ _ _ _ _ _ Hr) as [->|(e & He & Hne & ->)].
  - split; [reflexivity|]. intros H. congruence.
  - split.
    + intros Hns. exfalso. apply Hns. exists e. auto.
    + intros _. exists e. auto.
Qed.

End Claims.

(** * Where the claims as first stated fail *)

(** C3: a dict of 2^30 + 3 entries.  [count * 4] wraps around to 12, the
    capacity computed is 4, and next_power_of_two(ceil(count * 4 / 3)) is
    2^31.  The table is not "pre-allocated with guaranteed sufficient
    space" (line 62). *)
Lemma capacity_wraps_for_large_dict :
  in_range (2 ^ 30 + 3)
  /\ planned_capacity (2 ^ 30 + 3) = 4
  /\ plan (2 ^ 30 + 3) = 2 ^ 31
  /\ planned_capacity (2 ^ 30 + 3) <> plan (2 ^ 30 + 3).
Proof.
  split; [split; [discriminate|reflexivity]|].
  split; [reflexivity|]. split; [reflexivity|]. discriminate.
Qed.

Section Overflow.

Variable pystr_hash : PyStringObject -> Z.

(** C4: a dict of 2^31 - 1 members.  [count * 4] wraps around to
    2^32 - 4, the capacity computed is 2^31, and the table [ClassMap_new]
    returns holds 2^31 - 1 members in 2^31 slots:
    [member_count <= allocated * 3 / 4] does not hold of it.  (A dict of
    2^30 + 3 members breaks the bound while it is stored, see
    [wrapped_table_fills].) *)
Theorem load_factor_lost_to_wrapped_capacity
    (kvs : list (PyStringObject * Member)) (fuel : nat) :
  Z.of_nat (length kvs) = 2 ^ 31 - 1 ->
  (probe_budget (2 ^ 31) <= fuel)%nat ->
  planned_capacity (u32 (Z.of_nat (length kvs))) = 2 ^ 31
  /\ exists map,
       ClassMap_new pystr_hash fuel true true
         (Some (ArgDict (typed_items kvs)))
       = Done (Returned map, increfs kvs)
       /\ allocated map = 2 ^ 31
       /\ member_count map = 2 ^ 31 - 1
       /\ ~ member_count map <= allocated map * 3 / 4.
Proof.
  intros Hlen Hf. rewrite Hlen. split; [exact wrapped_capacity_31|].
  pose proof (fresh_table_pow2 31 ltac:(lia)) as Ht.
  change (2 ^ Z.of_nat 31) with (2 ^ 31) in Ht.
  destruct (new_loop_builds pystr_hash 31 fuel kvs
              (fresh_table generic_new (2 ^ 31)) Ht)
    as (map & Hnew & Ht' & Hcnt & _).
  - exact Hf.
  - cbn [fresh_table entries]. rewrite occupied_entries_replicate.
    cbn [length]. pose proof (pow2_of_nat 31) as H31.
    change (2 ^ Z.of_nat 31) with 2147483648 in H31.
    change (2 ^ 31) with 2147483648 in Hlen. lia.
  - cbn [fresh_table generic_new member_count]. lia.
  - cbn [fresh_table generic_new member_count].
    change (2 ^ 31) with 2147483648 in Hlen.
    change modulus with 4294967296. lia.
  - exists map. split.
    + unfold ClassMap_new. cbn [negb]. rewrite typed_items_length, Hlen.
      rewrite wrapped_capacity_31, Hnew. cbn [bind ret].
      rewrite app_nil_r. reflexivity.
    + cbn [fresh_table generic_new member_count] in Hcnt.
      destruct Ht' as (_ & Ha & _). rewrite Ha, Hcnt, Hlen.
      split; [reflexivity|]. split; [reflexivity|].
      intros H. vm_compute in H. apply H. reflexivity.
Qed.

(** C7: a dict of 2^30 + 3 entries in which an entry whose key is not a
    string or whose value is not a member comes after five or more pairs
    of a string and a member.  The capacity computed is 4; the four slots
    are taken by the first four pairs and the [insert_member] of the
    fifth does not return: whatever the step budget, [ClassMap_new] is
    still running, and it raises no type error. *)
Theorem type_error_lost_to_wrapped_capacity pre key value rest :
  (5 <= length pre)%nat ->
  ~ well_typed (key, value) ->
  Z.of_nat (length (typed_items pre ++ (key, value) :: rest)) = 2 ^ 30 + 3 ->
  planned_capacity
    (u32 (Z.of_nat (length (typed_items pre ++ (key, value) :: rest)))) = 4
  /\ forall fuel : nat,
       ClassMap_new pystr_hash fuel true true
         (Some (ArgDict (typed_items pre ++ (key, value) :: rest)))
       = Diverge.
Proof.
  intros Hpre _ Hlen. rewrite Hlen. split; [exact wrapped_capacity_4|].
  intros fuel. unfold ClassMap_new. cbn [negb].
  rewrite Hlen, wrapped_capacity_4.
  rewrite (new_loop_overflows pystr_hash 2 fuel pre); [reflexivity| |].
  - exact (fresh_table_pow2 2 ltac:(lia)).
  - cbn [fresh_table entries]. rewrite occupied_entries_replicate.
    cbn [length Nat.pow Nat.mul Nat.add]. lia.
Qed.

End Overflow.

(** C6: hash 3 on a table of 4 slots.  The first two buckets probed are
    both slot 3, before slots 0, 1 and 2 have been visited. *)
Lemma probe_sequence_revisits :
  List.map (probe_bucket (2 ^ 2 - 1) 3) (seq 0 4) = [3; 3; 0; 1]
  /\ ~ (forall hash (k i j : nat),
          in_range hash -> (k <= 31)%nat -> (i < j < 2 ^ k)%nat ->
          probe_bucket (2 ^ Z.of_nat k - 1) hash i
          <> probe_bucket (2 ^ Z.of_nat k - 1) hash j).
Proof.
  split; [reflexivity|]. intros H.
  apply (H 3 2%nat 0%nat 1%nat).
  - split; [discriminate|reflexivity].
  - lia.
  - cbn; lia.
  - reflexivity.
Qed.

(** C9: a visitor that answers 1.  The traversal of a table with three
    occupied slots stops after the first key. *)
Lemma traverse_stops_at_nonzero_answer :
  array_ok example_table
  /\ ClassMap_traverse (fun _ (s : unit) => (1, s)) example_table tt
     = Done (1, tt, [PyStr "bb"%string])
  /\ all_referents (entries example_table)
     = [PyStr "bb"%string; PyMember (MemberAt 2);
        PyStr "a"%string; PyMember (MemberAt 1);
        PyStr "c"%string; PyMember (MemberAt 3)].
Proof.
  split; [split; reflexivity|]. split; reflexivity.
Qed.

(** * The claims on an example *)

(** [example_table] is the table built from [example_kvs]. *)
Example example_table_built :
  ClassMap_new example_hash 12 true true
    (Some (ArgDict (typed_items example_kvs)))
  = Done (Returned example_table, increfs example_kvs).
Proof. reflexivity. Qed.

Lemma example_kvs_NoDup : NoDup example_kvs.*1.
Proof.
  repeat (apply NoDup_cons; split;
          [rewrite ?elem_of_cons, elem_of_nil; intuition discriminate|]).
  apply NoDup_nil. exact I.
Defined.

Lemma lookup_after_build_roundtrip_witness :
  exists map,
    ClassMap_new example_hash 12 true true
      (Some (ArgDict (typed_items example_kvs)))
    = Done (Returned map, increfs example_kvs)
    /\ forall (i : nat) nm mb mo io,
         example_kvs !! i = Some (nm, mb) ->
         ClassMap_LookupMember example_hash 12 map nm mo io
         = Done (Some mb, Z.of_nat i).
Proof.
  apply (lookup_after_build_roundtrip example_hash example_kvs 12 12).
  - exact example_kvs_NoDup.
  - reflexivity.
  - vm_compute. lia.
  - vm_compute. lia.
Defined.

Lemma absent_name_not_found_witness :
  exists map,
    ClassMap_new example_hash 12 true true
      (Some (ArgDict (typed_items example_kvs)))
    = Done (Returned map, increfs example_kvs)
    /\ forall mo io,
         ClassMap_LookupMember example_hash 12 map "z"%string mo io
         = Done (mo, io).
Proof.
  apply (absent_name_not_found example_hash example_kvs 12 12 "z"%string).
  - reflexivity.
  - vm_compute. lia.
  - vm_compute. lia.
  - cbn. rewrite !elem_of_cons, elem_of_nil. intuition discriminate.
Defined.

Lemma planned_capacity_matches_plan_witness :
  planned_capacity 5 = plan 5
  /\ planned_capacity 3 = 4 /\ planned_capacity 0 = 4.
Proof.
  apply (planned_capacity_matches_plan 5).
  split; [discriminate|reflexivity].
Defined.

Lemma load_factor_invariant_witness :
  exists k : nat,
    planned_capacity (u32 (Z.of_nat (length example_kvs))) = 2 ^ Z.of_nat k
    /\ (forall j : nat, (j <= length example_kvs)%nat ->
         exists map log,
           new_loop example_hash 12
             (fresh_table generic_new
                (planned_capacity (u32 (Z.of_nat (length example_kvs)))))
             (typed_items (take j example_kvs))
           = Done ((map, None), log)
           /\ member_count map = Z.of_nat j
           /\ allocated map = 2 ^ Z.of_nat k
           /\ member_count map <= allocated map * 3 / 4)
    /\ (exists map log,
         ClassMap_new example_hash 12 true true
           (Some (ArgDict (typed_items example_kvs)))
         = Done (Returned map, log)
         /\ member_count map = Z.of_nat (length example_kvs)
         /\ allocated map = 2 ^ Z.of_nat k
         /\ member_count map <= allocated map * 3 / 4).
Proof.
  apply (load_factor_invariant example_hash example_kvs 12).
  - reflexivity.
  - vm_compute. lia.
Defined.

Lemma example_table_pow2 : pow2_table 2 example_table.
Proof. split; [lia|]. split; reflexivity. Defined.

Lemma example_table_vacant : exists slot, vacant (entries example_table) slot.
Proof. exists 0%nat, zero_entry. split; reflexivity. Defined.

Lemma probe_loops_terminate_witness :
  (exists slot,
     vacant (entries example_table) slot /\
     insert_member example_hash 12 example_table "d"%string (MemberAt 4)
     = Done (store example_table slot "d"%string (MemberAt 4),
             [Incref (PyStr "d"%string); Incref (PyMember (MemberAt 4))]))
  /\ (exists r,
       ClassMap_LookupMember example_hash 12 example_table "d"%string None 0
       = Done r
       /\ (r = (None, 0)
           \/ exists e,
                e ∈ entries example_table /\ name e = Some "d"%string
                /\ r = (member e, index e))).
Proof.
  apply (probe_loops_terminate example_hash 2 example_table 12
           "d"%string (MemberAt 4) None 0).
  - exact example_table_pow2.
  - exact example_table_vacant.
  - vm_compute. lia.
Defined.

Lemma index_density_witness :
  exists map,
    ClassMap_new example_hash 12 true true
      (Some (ArgDict (typed_items example_kvs)))
    = Done (Returned map, increfs example_kvs)
    /\ member_count map = Z.of_nat (length example_kvs)
    /\ occupied_indices (entries map) ≡ₚ seqZ 0 (member_count map)
    /\ NoDup (occupied_indices (entries map))
    /\ forall (i : nat) nm mb,
         example_kvs !! i = Some (nm, mb) ->
         {| name := Some nm; member := Some mb; index := Z.of_nat i |}
         ∈ entries map.
Proof.
  apply (index_density example_hash example_kvs 12).
  - reflexivity.
  - vm_compute. lia.
Defined.

Lemma lookup_not_found_leaves_outputs_witness :
  exists r,
    ClassMap_LookupMember example_hash 12 example_table "z"%string None 77
    = Done r
    /\ (~ stored (entries example_table) "z"%string -> r = (None, 77))
    /\ (r <> (None, 77) ->
        exists e,
          e ∈ entries example_table /\ name e = Some "z"%string
          /\ r = (member e, index e)).
Proof.
  apply (lookup_not_found_leaves_outputs example_hash 2 example_table 12
           "z"%string None 77).
  - exact example_table_pow2.
  - exact example_table_vacant.
  - vm_compute. lia.
Defined.

Lemma construction_type_error_witness :
  exists pre key value rest dlog,
    example_bad_items = typed_items pre ++ (key, value) :: rest
    /\ ~ well_typed (key, value)
    /\ ClassMap_new example_hash 16 true true (Some (ArgDict example_bad_items))
       = Done (Raised (type_error key value), increfs pre ++ dlog)
    /\ dlog ≡ₚ decrefs pre.
Proof.
  apply (construction_type_error example_hash 16 example_bad_items).
  - exists (PyOther "int"%string 5, PyMember (MemberAt 9)). split.
    + unfold example_bad_items. apply elem_of_app. right. apply elem_of_cons.
      left. reflexivity.
    + intros [[s Hs] _]. discriminate.
  - reflexivity.
  - vm_compute. lia.
Defined.

Lemma probe_sequence_tail_permutes_witness :
  (forall i j : nat,
     (i < j < 2 ^ 2)%nat ->
     probe_bucket (2 ^ Z.of_nat 2 - 1) 3 (7 + i)
     <> probe_bucket (2 ^ Z.of_nat 2 - 1) 3 (7 + j))
  /\ (forall slot,
       0 <= slot < 2 ^ Z.of_nat 2 ->
       exists i : nat,
         (i < 2 ^ 2)%nat
         /\ probe_bucket (2 ^ Z.of_nat 2 - 1) 3 (7 + i) = slot).
Proof.
  apply (probe_sequence_tail_permutes 2 3 7).
  - lia.
  - split; [discriminate|reflexivity].
  - lia.
Defined.

Lemma load_factor_lost_to_wrapped_capacity_witness :
  NoDup example_giant_dict.*1
  /\ planned_capacity (u32 (Z.of_nat (length example_giant_dict))) = 2 ^ 31
  /\ exists map,
       ClassMap_new example_hash (probe_budget (2 ^ 31)) true true
         (Some (ArgDict (typed_items example_giant_dict)))
       = Done (Returned map, increfs example_giant_dict)
       /\ allocated map = 2 ^ 31
       /\ member_count map = 2 ^ 31 - 1
       /\ ~ member_count map <= allocated map * 3 / 4.
Proof.
  split; [apply numbered_dict_NoDup|].
  apply (load_factor_lost_to_wrapped_capacity example_hash
           example_giant_dict (probe_budget (2 ^ 31))).
  - unfold example_giant_dict. rewrite numbered_dict_length.
    apply Z2Nat.id. discriminate.
  - apply le_n.
Defined.

Lemma type_error_lost_to_wrapped_capacity_witness :
  planned_capacity (u32 (Z.of_nat (length example_giant_bad_items))) = 4
  /\ forall fuel : nat,
       ClassMap_new example_hash fuel true true
         (Some (ArgDict example_giant_bad_items))
       = Diverge.
Proof.
  apply (type_error_lost_to_wrapped_capacity example_hash
           (numbered_dict 0 5) (PyOther "int"%string 5) (PyMember (MemberAt 9))
           (typed_items (numbered_dict 6 (Z.to_nat (2 ^ 30 - 3))))).
  - rewrite numbered_dict_length. lia.
  - intros [[s Hs] _]. discriminate.
  - rewrite length_app, length_cons, !typed_items_length,
      !numbered_dict_length.
    change (2 ^ 30) with 1073741824. lia.
Defined.

Lemma example_table_array_ok : array_ok example_table.
Proof. split; reflexivity. Defined.

Lemma clear_idempotent_traverse_coverage_witness :
  (ClassMap_clear example_table
   = Done (cleared example_table,
           Decref <$> all_referents (entries example_table))
   /\ (forall e, e ∈ entries (cleared example_table) -> name e = None)
   /\ ClassMap_clear (cleared example_table) = Done (cleared example_table, [])
   /\ ClassMap_traverse stopping_visit example_table 0%nat
      = Done (visit_until stopping_visit 0%nat
                (all_referents (entries example_table)))
   /\ (exists v seen,
         ClassMap_traverse stopping_visit example_table 0%nat
         = Done (v, visited stopping_visit 0%nat seen, seen)
         /\ seen `prefix_of` all_referents (entries example_table)
         /\ (v = 0 ->
             seen = all_referents (entries example_table)
             /\ answers_zero stopping_visit 0%nat seen)
         /\ (v <> 0 ->
             exists pre o,
               seen = pre ++ [o] /\ answers_zero stopping_visit 0%nat pre
               /\ fst (stopping_visit o (visited stopping_visit 0%nat pre)) = v)
         /\ ((forall o s', fst (stopping_visit o s') = 0) -> v = 0))
   /\ ClassMap_traverse stopping_visit (cleared example_table) 0%nat
      = Done (0, 0%nat, []))
  /\ ClassMap_traverse stopping_visit example_table 0%nat
     = Done (7, 3%nat,
             [PyStr "bb"%string; PyMember (MemberAt 2); PyStr "a"%string]).
Proof.
  split; [|reflexivity].
  apply (clear_idempotent_traverse_coverage stopping_visit example_table 0%nat).
  exact example_table_array_ok.
Defined.

(** * Further properties of the code *)

(** ** Reference logs *)

Lemma taken_app l1 l2 : taken (l1 ++ l2) = taken l1 ++ taken l2.
Proof. apply omap_app. Qed.

Lemma released_app l1 l2 : released (l1 ++ l2) = released l1 ++ released l2.
Proof. apply omap_app. Qed.

Lemma taken_increfs kvs : taken (increfs kvs) = objects_of kvs.
Proof.
  induction kvs as [|kv kvs IH]; [reflexivity|].
  unfold increfs, objects_of in *. cbn [List.flat_map].
  rewrite taken_app, IH. reflexivity.
Qed.

Lemma released_increfs kvs : released (increfs kvs) = [].
Proof.
  induction kvs as [|kv kvs IH]; [reflexivity|].
  unfold increfs in *. cbn [List.flat_map]. rewrite released_app, IH.
  reflexivity.
Qed.

Lemma taken_Decref l : taken (Decref <$> l) = [].
Proof. induction l as [|o l IH]; [reflexivity|exact IH]. Qed.

Lemma released_Decref l : released (Decref <$> l) = l.
Proof.
  induction l as [|o l IH]; [reflexivity|].
  cbn. unfold released in IH. rewrite IH. reflexivity.
Qed.

Lemma all_referents_entries_of c0 kvs :
  all_referents (entries_of c0 kvs) = objects_of kvs.
Proof.
  revert c0. induction kvs as [|kv kvs IH]; intros c0; [reflexivity|].
  cbn [entries_of]. unfold all_referents, objects_of in *.
  cbn [List.flat_map]. rewrite IH. reflexivity.
Qed.

(** The objects a table refers to are those of the pairs stored in it. *)
Lemma built_referents base kvs :
  occupied_entries base ≡ₚ entries_of 0 kvs ->
  all_referents base ≡ₚ objects_of kvs.
Proof.
  intros Hperm. rewrite <- all_referents_occupied, <- (all_referents_entries_of 0).
  unfold all_referents. apply Permutation_flat_map. exact Hperm.
Qed.

(** ** Dicts, well typed or not *)

Lemma typed_items_well_typed kvs : Forall well_typed (typed_items kvs).
Proof.
  induction kvs as [|kv kvs IH]; [constructor|].
  constructor; [|exact IH]. split; cbn; eauto.
Qed.

Lemma well_typed_typed_items items :
  Forall well_typed items -> exists kvs, items = typed_items kvs.
Proof.
  induction 1 as [|[key value] items [[nm Hk] [mb Hv]] _ [kvs ->]].
  - exists []. reflexivity.
  - exists ((nm, mb) :: kvs). cbn in Hk, Hv. cbn.
    rewrite (PyString_Check_Some _ _ Hk), (Member_Check_Some _ _ Hv).
    reflexivity.
Qed.

Lemma well_typed_or_offender items :
  Forall well_typed items \/ exists kv, kv ∈ items /\ ~ well_typed kv.
Proof.
  induction items as [|[key value] items [IH|(kv & Hin & Hbad)]].
  - left. constructor.
  - destruct (PyString_Check key) as [nm|] eqn:Hk.
    + destruct (Member_Check value) as [mb|] eqn:Hv.
      * left. constructor; [|exact IH]. split; cbn; [rewrite Hk|rewrite Hv]; eauto.
      * right. exists (key, value). split; [left|].
        intros [_ [m Hm]]. cbn in Hm. congruence.
    + right. exists (key, value). split; [left|].
      intros [[s Hs] _]. cbn in Hs. congruence.
  - right. exists kv. split; [right; exact Hin|exact Hbad].
Qed.

Section NewFacts.

Variable pystr_hash : PyStringObject -> Z.

(** A dict with an ill-typed entry: the pairs before the first such entry
    are stored, then released with the table. *)
Lemma ClassMap_new_ill_typed (fuel : nat) items :
  (exists kv, kv ∈ items /\ ~ well_typed kv) ->
  Z.of_nat (length items) < 2 ^ 30 ->
  (probe_budget (planned_capacity (u32 (Z.of_nat (length items)))) <= fuel)%nat ->
  exists pre key value rest dlog,
    items = typed_items pre ++ (key, value) :: rest
    /\ ~ well_typed (key, value)
    /\ ClassMap_new pystr_hash fuel true true (Some (ArgDict items))
       = Done (Raised (type_error key value), increfs pre ++ dlog)
    /\ taken dlog = []
    /\ released dlog ≡ₚ objects_of pre.
Proof.
  intros Hex Hn Hf.
  destruct (first_offender items Hex)
    as (pre & key & value & rest & Hitems & Hbad).
  assert (length pre < length items)%nat as Hpre.
  { rewrite Hitems, length_app, typed_items_length. cbn [length]. lia. }
  destruct (fresh_table_ready (Z.of_nat (length items)))
    as (k & Hk & Hcap & Hload & Ht0); [lia|].
  set (t0 := fresh_table generic_new
               (planned_capacity (u32 (Z.of_nat (length items))))) in *.
  destruct (fresh_table_room (length items) (length pre) k
              (planned_capacity (u32 (Z.of_nat (length items)))) Hn)
    as (Hocc & Hc0 & Hcm); [lia|exact Hload|].
  destruct (new_loop_builds pystr_hash k fuel pre t0 Ht0 Hf Hocc Hc0 Hcm)
    as (map1 & Hnew & Ht1 & _ & Hperm & _).
  unfold t0 in Hperm. cbn [fresh_table entries] in Hperm.
  rewrite occupied_entries_replicate in Hperm. cbn [app] in Hperm.
  exists pre, key, value, rest, (Decref <$> all_referents (entries map1)).
  split; [exact Hitems|]. split; [exact Hbad|]. split; [|split].
  - unfold ClassMap_new. cbn [negb]. fold t0. rewrite Hitems.
    rewrite (new_loop_app pystr_hash fuel pre t0 map1 (increfs pre) _ Hnew).
    rewrite (new_loop_offender pystr_hash fuel map1 key value rest Hbad).
    cbn [bind]. unfold PyObjectPtr_drop, ClassMap_dealloc.
    rewrite (ClassMap_clear_spec map1 (pow2_table_array_ok k map1 Ht1)).
    cbn [bind ret]. rewrite !app_nil_r. reflexivity.
  - apply taken_Decref.
  - rewrite released_Decref. apply built_referents. exact Hperm.
Qed.

End NewFacts.

Section ConstructionFacts.

Variable pystr_hash : PyStringObject -> Z.

(** What [ClassMap_new] does for a dict of strings and members with
    distinct keys, told for stored and for other names. *)
Lemma built_lookup (kvs : list (PyStringObject * Member)) (fuel fuel' : nat) :
  NoDup kvs.*1 ->
  Z.of_nat (length kvs) < 2 ^ 30 ->
  (probe_budget (planned_capacity (u32 (Z.of_nat (length kvs)))) <= fuel)%nat ->
  (probe_budget (planned_capacity (u32 (Z.of_nat (length kvs)))) <= fuel')%nat ->
  exists map,
    ClassMap_new pystr_hash fuel true true (Some (ArgDict (typed_items kvs)))
    = Done (Returned map, increfs kvs)
    /\ (forall (i : nat) nm mb mo io,
          kvs !! i = Some (nm, mb) ->
          ClassMap_LookupMember pystr_hash fuel' map nm mo io
          = Done (Some mb, Z.of_nat i))
    /\ (forall nm mo io,
          nm ∉ kvs.*1 ->
          ClassMap_LookupMember pystr_hash fuel' map nm mo io = Done (mo, io)).
Proof.
  intros Hnd Hn Hf Hf'.
  destruct (ClassMap_new_typed pystr_hash fuel kvs Hn Hf)
    as (k & map & Hcap & Hload & Ht0 & Hloop & Hnew & Ht & Hc & Hperm).
  assert (allocated map = planned_capacity (u32 (Z.of_nat (length kvs))))
    as Ha by (destruct Ht as (_ & -> & _); symmetry; exact Hcap).
  assert (forall nm mo io, exists r,
            ClassMap_LookupMember pystr_hash fuel' map nm mo io = Done r)
    as Hret.
  { intros nm mo io. apply (lookup_member_returns pystr_hash k); [exact Ht| |].
    - exact (built_table_vacant k map kvs Ht Hload Hperm).
    - rewrite Ha. exact Hf'. }
  exists map. split; [exact Hnew|]. split.
  - intros i nm mb mo io Hi.
    destruct (fresh_table_room (length kvs) (length kvs) k
                (planned_capacity (u32 (Z.of_nat (length kvs))))
                Hn (le_n _) Hload) as (Hocc & Hc0 & Hcm).
    destruct (new_loop_paths pystr_hash k fuel kvs _ map (increfs kvs)
                Ht0 Hf Hocc Hc0 Hcm Hnd
                (fun nm' _ => fresh_table_not_stored _ _ nm') Hloop i nm mb Hi)
      as (n & Hlt & Hpath).
    cbn [fresh_table generic_new allocated member_count] in Hpath.
    rewrite Z.add_0_l in Hpath.
    destruct (Hret nm mo io) as (r & Hr). rewrite Hr. f_equal.
    unfold ClassMap_LookupMember in Hr.
    apply (lookup_loop_mono fuel' (Nat.max fuel fuel')) in Hr; [|lia].
    rewrite Ha in Hr.
    rewrite (lookup_path_found _ _ _ _ _ _ _ Hpath) in Hr by lia.
    injection Hr as <-. reflexivity.
  - intros nm mo io Hnm.
    destruct (Hret nm mo io) as (r & Hr). rewrite Hr. f_equal.
    destruct (lookup_loop_Done _ _ _ _ _ _ _ _ _ Hr)
      as [->|(e & He & Hne & _)]; [reflexivity|exfalso].
    assert (stored (entries map) nm) as Hst by (exists e; auto).
    apply stored_occupied in Hst. destruct Hst as (e' & He' & Hne').
    rewrite Hperm in He'. exact (Hnm (entries_of_names _ _ _ _ He' Hne')).
Qed.

(** X1.  [ClassMap_new] always comes back (for a dict of fewer than 2^30
    entries), and it returns a table exactly when its argument is an
    exact dict whose keys are all strings and whose values are all
    members and both allocations succeed. *)
Theorem ClassMap_new_accepts_exactly
    (fuel : nat) (new_ok malloc_ok : bool) (args : option PyArg) :
  (forall items,
     args = Some (ArgDict items) ->
     Z.of_nat (length items) < 2 ^ 30
     /\ (probe_budget (planned_capacity (u32 (Z.of_nat (length items))))
         <= fuel)%nat) ->
  exists res log,
    ClassMap_new pystr_hash fuel new_ok malloc_ok args = Done (res, log)
    /\ ((exists map, res = Returned map)
        <-> new_ok = true /\ malloc_ok = true
            /\ exists kvs, args = Some (ArgDict (typed_items kvs))).
Proof.
  intros Hsize.
  destruct args as [[items|o]|].
  2:{ exists (Raised (py_expected_type_fail o "dict")), []. split; [reflexivity|].
      split; [intros [map Hm]; discriminate|].
      intros (_ & _ & kvs & Hk). discriminate. }
  2:{ exists (Raised ArgumentError), []. split; [reflexivity|].
      split; [intros [map Hm]; discriminate|].
      intros (_ & _ & kvs & Hk). discriminate. }
  destruct (Hsize items eq_refl) as [Hn Hf].
  destruct new_ok.
  2:{ exists (Raised NoMemory), []. split; [reflexivity|].
      split; [intros [map Hm]; discriminate|]. intros (Hx & _). discriminate. }
  destruct malloc_ok.
  2:{ exists (Raised NoMemory), []. split; [reflexivity|].
      split; [intros [map Hm]; discriminate|].
      intros (_ & Hx & _). discriminate. }
  destruct (well_typed_or_offender items) as [Hall|Hex].
  - destruct (well_typed_typed_items items Hall) as [kvs ->].
    rewrite typed_items_length in Hn, Hf.
    destruct (ClassMap_new_typed pystr_hash fuel kvs Hn Hf)
      as (k & map & _ & _ & _ & _ & Hnew & _).
    exists (Returned map), (increfs kvs). split; [exact Hnew|].
    split; [intros _|intros _; eauto].
    split; [reflexivity|]. split; [reflexivity|]. eauto.
  - destruct (ClassMap_new_ill_typed pystr_hash fuel items Hex Hn Hf)
      as (pre & key & value & rest & dlog & Hitems & Hbad & Hnew & _).
    exists (Raised (type_error key value)), (increfs pre ++ dlog).
    split; [exact Hnew|].
    split; [intros [map Hm]; discriminate|].
    intros (_ & _ & kvs & Hk). exfalso. injection Hk as Hk.
    destruct Hex as (kv & Hin & Hkv). apply Hkv.
    pose proof (typed_items_well_typed kvs) as Hall.
    rewrite <- Hk in Hall. rewrite Forall_forall in Hall. apply Hall, Hin.
Qed.

(** X2.  Whatever makes [ClassMap_new] fail, it leaves no reference
    behind: the objects its log releases are, up to order, the objects
    it took. *)
Theorem ClassMap_new_failure_leaves_no_reference
    (fuel : nat) (new_ok malloc_ok : bool) (args : option PyArg) e log :
  (forall items,
     args = Some (ArgDict items) ->
     Z.of_nat (length items) < 2 ^ 30
     /\ (probe_budget (planned_capacity (u32 (Z.of_nat (length items))))
         <= fuel)%nat) ->
  ClassMap_new pystr_hash fuel new_ok malloc_ok args = Done (Raised e, log) ->
  released log ≡ₚ taken log.
Proof.
  intros Hsize Hnew.
  destruct args as [[items|o]|].
  2:{ cbn in Hnew. injection Hnew as _ <-. reflexivity. }
  2:{ cbn in Hnew. injection Hnew as _ <-. reflexivity. }
  destruct (Hsize items eq_refl) as [Hn Hf].
  destruct new_ok; [|cbn in Hnew; injection Hnew as _ <-; reflexivity].
  destruct malloc_ok; [|cbn in Hnew; injection Hnew as _ <-; reflexivity].
  destruct (well_typed_or_offender items) as [Hall|Hex].
  - destruct (well_typed_typed_items items Hall) as [kvs ->].
    rewrite typed_items_length in Hn, Hf.
    destruct (ClassMap_new_typed pystr_hash fuel kvs Hn Hf)
      as (k & map & _ & _ & _ & _ & Hnew' & _).
    rewrite Hnew' in Hnew. discriminate.
  - destruct (ClassMap_new_ill_typed pystr_hash fuel items Hex Hn Hf)
      as (pre & key & value & rest & dlog & _ & _ & Hnew' & Htk & Hrl).
    rewrite Hnew' in Hnew. injection Hnew as _ <-.
    rewrite released_app, taken_app, released_increfs, taken_increfs, Htk.
    rewrite app_nil_r. exact Hrl.
Qed.

(** X3.  A table built by [ClassMap_new] and then destroyed by
    [ClassMap_dealloc]: the destruction releases, up to order, exactly
    the keys and values the construction took a reference to. *)
Theorem dealloc_releases_what_new_took
    (kvs : list (PyStringObject * Member)) (fuel : nat) :
  Z.of_nat (length kvs) < 2 ^ 30 ->
  (probe_budget (planned_capacity (u32 (Z.of_nat (length kvs)))) <= fuel)%nat ->
  exists map log dlog,
    ClassMap_new pystr_hash fuel true true (Some (ArgDict (typed_items kvs)))
    = Done (Returned map, log)
    /\ ClassMap_dealloc map = Done (tt, dlog)
    /\ taken log = objects_of kvs /\ released log = []
    /\ taken dlog = [] /\ released dlog ≡ₚ objects_of kvs.
Proof.
  intros Hn Hf.
  destruct (ClassMap_new_typed pystr_hash fuel kvs Hn Hf)
    as (k & map & _ & _ & _ & _ & Hnew & Ht & _ & Hperm).
  exists map, (increfs kvs), (Decref <$> all_referents (entries map)).
  split; [exact Hnew|]. split.
  { unfold ClassMap_dealloc.
    rewrite (ClassMap_clear_spec map (pow2_table_array_ok k map Ht)).
    cbn [bind ret]. rewrite app_nil_r. reflexivity. }
  split; [apply taken_increfs|]. split; [apply released_increfs|].
  split; [apply taken_Decref|].
  rewrite released_Decref. apply built_referents. exact Hperm.
Qed.

(** X4.  On a table built by [ClassMap_new], a traversal whose visitor
    always answers 0 returns 0 after handing the visitor, up to order,
    exactly the keys and the values of the dict. *)
Theorem traverse_visits_what_new_stored
    {VS : Type} (visit : PyObject -> VS -> Z * VS) (s : VS)
    (kvs : list (PyStringObject * Member)) (fuel : nat) :
  Z.of_nat (length kvs) < 2 ^ 30 ->
  (probe_budget (planned_capacity (u32 (Z.of_nat (length kvs)))) <= fuel)%nat ->
  (forall o s', fst (visit o s') = 0) ->
  exists map seen,
    ClassMap_new pystr_hash fuel true true (Some (ArgDict (typed_items kvs)))
    = Done (Returned map, increfs kvs)
    /\ ClassMap_traverse visit map s = Done (0, visited visit s seen, seen)
    /\ seen ≡ₚ objects_of kvs.
Proof.
  intros Hn Hf Hzero.
  destruct (ClassMap_new_typed pystr_hash fuel kvs Hn Hf)
    as (k & map & _ & _ & _ & _ & Hnew & Ht & _ & Hperm).
  destruct (ClassMap_traverse_spec visit map s (pow2_table_array_ok k map Ht))
    as (v & seen & Hr & _ & Hall & Hv).
  specialize (Hv Hzero). subst v. specialize (Hall eq_refl).
  exists map, seen. split; [exact Hnew|]. split; [exact Hr|].
  rewrite Hall. apply built_referents. exact Hperm.
Qed.

End ConstructionFacts.

(** ** Lookups and later insertions *)

(** A lookup that has written the outputs has walked a path to an entry
    holding the name. *)
Lemma lookup_loop_written fuel base mask nm mo io r :
  forall hash bucket,
    lookup_loop fuel base mask nm hash bucket mo io = Done r ->
    r <> (mo, io) ->
    exists (n : nat) e,
      (n < fuel)%nat /\ lookup_path base mask nm n hash bucket e
      /\ r = (member e, index e).
Proof.
  induction fuel as [|fuel IH]; intros hash bucket H Hne; [discriminate|].
  cbn [lookup_loop] in H.
  destruct (base !! Z.to_nat bucket) as [e|] eqn:He; [|discriminate].
  destruct (name e) as [ename|] eqn:Hn.
  - destruct (pystr_equal nm ename) eqn:Heq.
    + injection H as <-. exists 0%nat, e. split; [lia|]. split; [|reflexivity].
      eapply lookup_path_hit; eauto.
    + destruct (IH _ _ H Hne) as (n & e' & Hlt & Hp & Hr).
      exists (Datatypes.S n), e'. split; [lia|]. split; [|exact Hr].
      eapply lookup_path_skip; eauto.
  - injection H as <-. congruence.
Qed.

Lemma entries_of_elem c0 kvs e :
  e ∈ entries_of c0 kvs ->
  exists (j : nat) nm mb,
    kvs !! j = Some (nm, mb)
    /\ e = {| name := Some nm; member := Some mb; index := c0 + Z.of_nat j |}.
Proof.
  revert c0. induction kvs as [|[nm mb] kvs IH]; intros c0 He; cbn in He.
  - inversion He.
  - apply elem_of_cons in He. destruct He as [->|He].
    + exists 0%nat, nm, mb. split; [reflexivity|]. cbn. rewrite Z.add_0_r.
      reflexivity.
    + destruct (IH _ He) as (j & nm' & mb' & Hj & ->).
      exists (Datatypes.S j), nm', mb'. split; [exact Hj|].
      f_equal. lia.
Qed.

Section LookupFacts.

Variable pystr_hash : PyStringObject -> Z.

(** X5.  Two dicts with the same pairs in different iteration orders:
    the two tables give, for every name, the same member or the same
    absence; only the index may differ. *)
Theorem lookup_independent_of_order
    (kvs kvs' : list (PyStringObject * Member)) (fuel : nat) nm mo io :
  kvs ≡ₚ kvs' ->
  NoDup kvs.*1 ->
  Z.of_nat (length kvs) < 2 ^ 30 ->
  (probe_budget (planned_capacity (u32 (Z.of_nat (length kvs)))) <= fuel)%nat ->
  exists map map' r r',
    ClassMap_new pystr_hash fuel true true (Some (ArgDict (typed_items kvs)))
    = Done (Returned map, increfs kvs)
    /\ ClassMap_new pystr_hash fuel true true
         (Some (ArgDict (typed_items kvs')))
       = Done (Returned map', increfs kvs')
    /\ ClassMap_LookupMember pystr_hash fuel map nm mo io = Done r
    /\ ClassMap_LookupMember pystr_hash fuel map' nm mo io = Done r'
    /\ fst r = fst r'.
Proof.
  intros Hperm Hnd Hn Hf.
  assert (length kvs' = length kvs) as Hlen
    by (symmetry; apply Permutation_length; exact Hperm).
  assert (NoDup kvs'.*1) as Hnd' by (rewrite <- Hperm; exact Hnd).
  destruct (built_lookup pystr_hash kvs fuel fuel Hnd Hn Hf Hf)
    as (map & Hnew & Hfound & Habsent).
  destruct (built_lookup pystr_hash kvs' fuel fuel Hnd')
    as (map' & Hnew' & Hfound' & Habsent'); try (rewrite Hlen; assumption).
  exists map, map'.
  destruct (in_dec String.string_dec nm kvs.*1) as [Hin|Hnin].
  - apply list_elem_of_In, list_elem_of_fmap in Hin.
    destruct Hin as ([nm0 mb] & Heq & Hin). cbn in Heq. subst nm0.
    assert ((nm, mb) ∈ kvs') as Hin' by (rewrite <- Hperm; exact Hin).
    apply list_elem_of_lookup in Hin as [i Hi].
    apply list_elem_of_lookup in Hin' as [j Hj].
    exists (Some mb, Z.of_nat i), (Some mb, Z.of_nat j).
    split; [exact Hnew|]. split; [exact Hnew'|].
    split; [exact (Hfound i nm mb mo io Hi)|].
    split; [exact (Hfound' j nm mb mo io Hj)|].
    reflexivity.
  - assert (nm ∉ kvs.*1) as Hn1 by (rewrite list_elem_of_In; exact Hnin).
    assert (nm ∉ kvs'.*1) as Hn2 by (rewrite <- Hperm; exact Hn1).
    exists (mo, io), (mo, io).
    split; [exact Hnew|]. split; [exact Hnew'|].
    split; [exact (Habsent nm mo io Hn1)|].
    split; [exact (Habsent' nm mo io Hn2)|]. reflexivity.
Qed.

(** X6.  [insert_member] never overwrites.  A lookup that succeeds (it
    returns [r] whatever the outputs held) returns the same [r] after any
    later insertion that returns, be it of the very same name: the entry
    stored first keeps answering. *)
Theorem insert_member_keeps_lookups
    (fuel : nat) map nm r nm' mb' map' log :
  (forall mo io, ClassMap_LookupMember pystr_hash fuel map nm mo io = Done r) ->
  insert_member pystr_hash fuel map nm' mb' = Done (map', log) ->
  forall mo io, ClassMap_LookupMember pystr_hash fuel map' nm mo io = Done r.
Proof.
  intros Hlook Hins mo io.
  pose proof (Hlook (fst r) (snd r + 1)) as H1.
  unfold ClassMap_LookupMember in H1.
  destruct (lookup_loop_written _ _ _ _ _ _ _ _ _ H1)
    as (n & e & Hlt & Hpath & Hr).
  { destruct r as [m i]. cbn. intros Heq. injection Heq as Heq. lia. }
  unfold insert_member in Hins.
  destruct (insert_loop_Done _ _ _ _ _ _ _ _ _ Hins) as (slot & Hv & -> & _).
  unfold ClassMap_LookupMember. cbn [store entries allocated].
  rewrite Hr. eapply lookup_path_found; [|exact Hlt].
  apply lookup_path_insert; assumption.
Qed.

(** X7.  Whatever name is looked up on a built table, the outputs are
    either left alone or receive a member the dict holds under that very
    name, never a null member, together with the position of that pair in
    the dict, which lies below [member_count]. *)
Theorem lookup_result_is_a_dict_entry
    (kvs : list (PyStringObject * Member)) (fuel fuel' : nat) nm mo io :
  Z.of_nat (length kvs) < 2 ^ 30 ->
  (probe_budget (planned_capacity (u32 (Z.of_nat (length kvs)))) <= fuel)%nat ->
  (probe_budget (planned_capacity (u32 (Z.of_nat (length kvs)))) <= fuel')%nat ->
  exists map r,
    ClassMap_new pystr_hash fuel true true (Some (ArgDict (typed_items kvs)))
    = Done (Returned map, increfs kvs)
    /\ ClassMap_LookupMember pystr_hash fuel' map nm mo io = Done r
    /\ (r = (mo, io)
        \/ exists (j : nat) mb,
             kvs !! j = Some (nm, mb)
             /\ r = (Some mb, Z.of_nat j)
             /\ 0 <= Z.of_nat j < member_count map).
Proof.
  intros Hn Hf Hf'.
  destruct (ClassMap_new_typed pystr_hash fuel kvs Hn Hf)
    as (k & map & Hcap & Hload & _ & _ & Hnew & Ht & Hc & Hperm).
  destruct (lookup_member_returns pystr_hash k map fuel' nm mo io Ht)
    as (r & Hr).
  { exact (built_table_vacant k map kvs Ht Hload Hperm). }
  { destruct Ht as (_ & -> & _). rewrite <- Hcap. exact Hf'. }
  exists map, r. split; [exact Hnew|]. split; [exact Hr|].
  destruct (lookup_loop_Done _ _ _ _ _ _ _ _ _ Hr)
    as [->|(e & He & Hne & ->)]; [left; reflexivity|right].
  assert (e ∈ occupied_entries (entries map)) as Hocc.
  { unfold occupied_entries. apply list_elem_of_In, List.filter_In.
    split; [apply list_elem_of_In; exact He|].
    unfold is_occupied. rewrite Hne. reflexivity. }
  rewrite Hperm in Hocc.
  destruct (entries_of_elem 0 kvs e Hocc) as (j & nm' & mb & Hj & ->).
  cbn in Hne. injection Hne as ->.
  exists j, mb. split; [exact Hj|]. cbn [member index].
  rewrite Z.add_0_l. split; [reflexivity|].
  rewrite Hc. apply lookup_lt_Some in Hj. lia.
Qed.

(** X8.  After [ClassMap_clear] the table answers as an empty one: every
    lookup leaves the outputs alone, at its first probe. *)
Theorem lookup_after_clear (k : nat) map (fuel : nat) nm mo io :
  pow2_table k map ->
  (1 <= fuel)%nat ->
  exists map' log,
    ClassMap_clear map = Done (map', log)
    /\ ClassMap_LookupMember pystr_hash fuel map' nm mo io = Done (mo, io).
Proof.
  intros Ht Hfuel.
  exists (cleared map), (Decref <$> all_referents (entries map)).
  split; [exact (ClassMap_clear_spec map (pow2_table_array_ok k map Ht))|].
  unfold ClassMap_LookupMember. cbn [cleared entries allocated].
  rewrite (pow2_table_mask k map Ht).
  destruct fuel as [|fuel]; [lia|]. cbn [lookup_loop].
  destruct Ht as (Hk & _ & Hlen).
  assert (0 <= Z.land (hash32 pystr_hash nm) (2 ^ Z.of_nat k - 1)
          < 2 ^ Z.of_nat k) as Hb.
  { rewrite (land_mask k) by lia. apply Z.mod_pos_bound.
    apply Z.pow_pos_nonneg; lia. }
  destruct (lookup_lt_is_Some_2 (entries map)
              (Z.to_nat (Z.land (hash32 pystr_hash nm) (2 ^ Z.of_nat k - 1))))
    as [e He].
  { rewrite Hlen. pose proof (pow2_of_nat k). lia. }
  rewrite list_lookup_fmap, He. cbn [fmap option_fmap option_map].
  rewrite clear_entry_name. reflexivity.
Qed.

End LookupFacts.

(** ** Capacity and footprint *)

Lemma planned_capacity_window n n' :
  0 <= n <= n' -> n' < 2 ^ 30 ->
  4 <= planned_capacity n <= 2 ^ 31
  /\ 4 * Z.max n 3 <= 3 * planned_capacity n
  /\ 3 * planned_capacity n < 8 * Z.max n 3
  /\ planned_capacity n <= planned_capacity n'.
Proof.
  intros Hn Hn'.
  assert (forall m, 0 <= m < 2 ^ 30 ->
            exists q,
              planned_capacity m = 2 ^ Z.log2_up q
              /\ q = Z.max m 3 * 4 / 3 /\ 4 <= q < 2 ^ 31
              /\ 2 <= Z.log2_up q <= 31) as Hshape.
  { intros m Hm. exists (Z.max m 3 * 4 / 3).
    change (2 ^ 30) with 1073741824 in Hm.
    assert (4 <= Z.max m 3 * 4 / 3 < 2147483648) as Hq
      by (Z.div_mod_to_equations; lia).
    unfold planned_capacity, next_power_of_2, mul.
    assert (u32 (Z.max m 3 * 4) = Z.max m 3 * 4) as ->
      by (apply Z.mod_small; change modulus with 4294967296; lia).
    set (q := Z.max m 3 * 4 / 3) in *. clearbody q.
    pose proof (Z.log2_up_spec q ltac:(lia)) as [_ Hup].
    assert (Z.log2_up q <= 31) as HL.
    { rewrite <- (Z.log2_up_pow2 31) by lia. apply Z.log2_up_le_mono.
      change (2 ^ 31) with 2147483648. lia. }
    assert (2 <= Z.log2_up q) as HL2 by (apply pow2_ge_4; lia).
    split; [|split; [reflexivity|split; [exact Hq|lia]]].
    apply Z.mod_small. split; [apply Z.pow_nonneg; lia|].
    apply Z.le_lt_trans with (2 ^ 31);
      [apply Z.pow_le_mono_r; lia|reflexivity]. }
  destruct (Hshape n) as (q & Hcap & Hq & Hqr & HL); [lia|].
  destruct (Hshape n') as (q' & Hcap' & Hq' & Hqr' & HL'); [lia|].
  rewrite Hcap, Hcap'.
  pose proof (Z.log2_up_spec q ltac:(lia)) as [Hlo Hup].
  assert (4 * Z.max n 3 - 2 <= 3 * q /\ 3 * q <= 4 * Z.max n 3) as [Hq1 Hq2]
    by (rewrite Hq; Z.div_mod_to_equations; lia).
  assert (q <= q') as Hqq by (rewrite Hq, Hq'; Z.div_mod_to_equations; lia).
  clear Hq Hq'.
  set (L := Z.log2_up q) in *.
  assert (2 ^ L = 2 * 2 ^ Z.pred L) as Hhalf.
  { replace L with (Z.succ (Z.pred L)) at 1 by lia.
    apply Z.pow_succ_r. lia. }
  assert (2 ^ L = 4 * 2 ^ (L - 2)) as Hquarter by (apply pow2_split_4; lia).
  split; [split|split; [|split]].
  - apply (Z.pow_le_mono_r 2 2 L); lia.
  - apply Z.pow_le_mono_r; lia.
  - clearbody L. lia.
  - clearbody L. lia.
  - apply Z.pow_le_mono_r; [lia|]. apply Z.log2_up_le_mono. exact Hqq.
Qed.

(** X9.  The capacity planned for [n] entries (below 2^30) is at least 4
    and at most 2^31, holds [max(n, 3)] entries at no more than three
    quarters of its slots and at more than three eighths of them, and
    does not shrink when [n] grows. *)
Theorem planned_capacity_bounds n n' :
  0 <= n <= n' -> n' < 2 ^ 30 ->
  4 <= planned_capacity n <= 2 ^ 31
  /\ 4 * Z.max n 3 <= 3 * planned_capacity n
  /\ 3 * planned_capacity n < 8 * Z.max n 3
  /\ planned_capacity n <= planned_capacity n'.
Proof. exact (planned_capacity_window n n'). Qed.

Section Footprint.

Variable pystr_hash : PyStringObject -> Z.

(** X10.  The footprint [ClassMap_sizeof] reports for a built table is
    the basic size plus one entry size per slot of the planned capacity:
    at least four entries, fewer than 8/3 entries per member (for three
    members or more); [ClassMap_clear] does not change it. *)
Theorem sizeof_built_table
    (tp_basicsize entry_size : Z)
    (kvs : list (PyStringObject * Member)) (fuel : nat) :
  0 <= entry_size ->
  Z.of_nat (length kvs) < 2 ^ 30 ->
  (probe_budget (planned_capacity (u32 (Z.of_nat (length kvs)))) <= fuel)%nat ->
  exists map map' log,
    ClassMap_new pystr_hash fuel true true (Some (ArgDict (typed_items kvs)))
    = Done (Returned map, increfs kvs)
    /\ ClassMap_sizeof tp_basicsize entry_size map
       = tp_basicsize
         + entry_size * planned_capacity (Z.of_nat (length kvs))
    /\ tp_basicsize + entry_size * 4
       <= ClassMap_sizeof tp_basicsize entry_size map
    /\ 3 * (ClassMap_sizeof tp_basicsize entry_size map - tp_basicsize)
       <= entry_size * (8 * Z.max (Z.of_nat (length kvs)) 3)
    /\ ClassMap_clear map = Done (map', log)
    /\ ClassMap_sizeof tp_basicsize entry_size map'
       = ClassMap_sizeof tp_basicsize entry_size map.
Proof.
  intros Hes Hn Hf.
  destruct (ClassMap_new_typed pystr_hash fuel kvs Hn Hf)
    as (k & map & Hcap & _ & _ & _ & Hnew & Ht & _ & _).
  exists map, (cleared map), (Decref <$> all_referents (entries map)).
  split; [exact Hnew|].
  assert (allocated map = planned_capacity (Z.of_nat (length kvs))) as Ha.
  { destruct Ht as (_ & -> & _). rewrite <- Hcap, u32_small; [reflexivity|lia]. }
  destruct (planned_capacity_window (Z.of_nat (length kvs))
              (Z.of_nat (length kvs))) as ([Hlo _] & _ & Hhi & _); [lia|lia|].
  unfold ClassMap_sizeof. rewrite Ha.
  split; [reflexivity|]. split; [nia|]. split; [nia|].
  split; [exact (ClassMap_clear_spec map (pow2_table_array_ok k map Ht))|].
  cbn [cleared allocated]. rewrite Ha. reflexivity.
Qed.

End Footprint.

(** ** One insertion *)

Lemma land_mask_range (k : nat) hash :
  (k <= 32)%nat ->
  0 <= Z.land hash (2 ^ Z.of_nat k - 1) < 2 ^ Z.of_nat k.
Proof.
  intros Hk. rewrite (land_mask k Hk). apply Z.mod_pos_bound.
  apply Z.pow_pos_nonneg; lia.
Qed.

Section InsertionFacts.

Variable pystr_hash : PyStringObject -> Z.

(** X11.  Whenever [insert_member] returns it has written one slot,
    which was free, and nothing else: every other slot, the length of the
    array and [allocated] are as before, [member_count] has advanced by
    one, one reference to the name and one to the member were taken, and
    the names stored are the old ones and the new one. *)
Theorem insert_member_frame (fuel : nat) map nm mb map' log :
  insert_member pystr_hash fuel map nm mb = Done (map', log) ->
  exists slot : nat,
    vacant (entries map) slot
    /\ entries map' !! slot
       = Some {| name := Some nm; member := Some mb;
                 index := member_count map |}
    /\ (forall j : nat, j <> slot -> entries map' !! j = entries map !! j)
    /\ length (entries map') = length (entries map)
    /\ allocated map' = allocated map
    /\ member_count map' = add (member_count map) 1
    /\ log = [Incref (PyStr nm); Incref (PyMember mb)]
    /\ (forall nm', stored (entries map') nm'
                    <-> nm' = nm \/ stored (entries map) nm').
Proof.
  intros Hins. unfold insert_member in Hins.
  destruct (insert_loop_Done _ _ _ _ _ _ _ _ _ Hins) as (slot & Hv & -> & ->).
  exists slot. cbn [store entries allocated member_count].
  pose proof Hv as (e0 & He0 & Hn0).
  pose proof (lookup_lt_Some _ _ _ He0) as Hlt.
  split; [exact Hv|]. split; [apply list_lookup_insert_eq; exact Hlt|].
  split; [intros j Hj; apply list_lookup_insert_ne; congruence|].
  split; [apply length_insert|]. do 3 (split; [reflexivity|]).
  intros nm'. split.
  - intros (e & He & Hne). apply list_elem_of_lookup in He as [j Hj].
    destruct (decide (j = slot)) as [->|Hjs].
    + rewrite list_lookup_insert_eq in Hj by exact Hlt.
      injection Hj as <-. cbn in Hne. injection Hne as <-. left. reflexivity.
    + rewrite list_lookup_insert_ne in Hj by congruence.
      right. exists e. split; [|exact Hne]. apply list_elem_of_lookup. eauto.
  - intros [->|(e & He & Hne)].
    + exists {| name := Some nm; member := Some mb;
                index := member_count map |}.
      split; [|reflexivity].
      apply list_elem_of_lookup. exists slot.
      apply list_lookup_insert_eq. exact Hlt.
    + exists e. split; [|exact Hne].
      apply list_elem_of_lookup in He as [j Hj].
      apply list_elem_of_lookup. exists j.
      rewrite list_lookup_insert_ne; [exact Hj|].
      intros ->. congruence.
Qed.

(** X12.  The loops have no exit of their own: on a table of [2^k] slots
    that are all taken, [insert_member] never returns, and neither does
    the lookup of a name that is not stored, whatever the budget. *)
Theorem full_table_never_returns (k : nat) map (fuel : nat) nm mb mo io :
  pow2_table k map ->
  (forall e, e ∈ entries map -> is_Some (name e)) ->
  insert_member pystr_hash fuel map nm mb = Diverge
  /\ (~ stored (entries map) nm ->
      ClassMap_LookupMember pystr_hash fuel map nm mo io = Diverge).
Proof.
  intros Ht Hfull.
  pose proof (pow2_table_mask k map Ht) as Hmask.
  destruct Ht as (Hk & _ & Hlen).
  split.
  - unfold insert_member. rewrite Hmask.
    apply insert_loop_full_table; try assumption; [lia|].
    apply land_mask_range. lia.
  - intros Hns. unfold ClassMap_LookupMember. rewrite Hmask.
    apply lookup_loop_full_table; try assumption; [lia| |].
    + apply land_mask_range. lia.
    + intros e He. destruct (Hfull e He) as [ename Hn].
      exists ename. split; [exact Hn|]. intros ->. apply Hns.
      exists e. split; assumption.
Qed.

(** X13.  One insertion, then the lookup: on a table of [2^k] slots with
    a free slot, once [insert_member] has stored a name that was not
    there, [ClassMap_LookupMember] of that name writes the member
    inserted and, as index, the value [member_count] had before. *)
Theorem insert_then_lookup (k : nat) map (fuel : nat) nm mb :
  pow2_table k map ->
  (exists slot, vacant (entries map) slot) ->
  (probe_budget (allocated map) <= fuel)%nat ->
  ~ stored (entries map) nm ->
  exists map',
    insert_member pystr_hash fuel map nm mb
    = Done (map', [Incref (PyStr nm); Incref (PyMember mb)])
    /\ pow2_table k map'
    /\ forall mo io,
         ClassMap_LookupMember pystr_hash fuel map' nm mo io
         = Done (Some mb, member_count map).
Proof.
  intros Ht Hv Hf Hns.
  destruct (insert_member_returns pystr_hash k map fuel nm mb Ht Hv Hf)
    as (slot & Hvs & Hins).
  exists (store map slot nm mb). split; [exact Hins|].
  split; [apply store_pow2_table; exact Ht|]. intros mo io.
  unfold insert_member in Hins.
  destruct (insert_loop_path _ _ _ _ _ _ _ _ _ Hins Hns) as (n & Hn & Hp).
  unfold ClassMap_LookupMember. cbn [store allocated].
  exact (lookup_path_found _ _ _ _ _ _ _ Hp fuel mo io Hn).
Qed.

End InsertionFacts.

Section TeardownFacts.

Variable pystr_hash : PyStringObject -> Z.

(** X14.  Cleared by the collector, then deallocated: [ClassMap_clear]
    releases the key and value of every occupied slot, and the
    [ClassMap_dealloc] that follows releases nothing more, so that each
    reference is given back once. *)
Theorem clear_then_dealloc_releases_once self :
  array_ok self ->
  exists self' log,
    ClassMap_clear self = Done (self', log)
    /\ released log = all_referents (entries self)
    /\ taken log = []
    /\ ClassMap_dealloc self' = Done (tt, []).
Proof.
  intros Hok.
  exists (cleared self), (Decref <$> all_referents (entries self)).
  split; [exact (ClassMap_clear_spec self Hok)|].
  split; [apply released_Decref|]. split; [apply taken_Decref|].
  unfold ClassMap_dealloc.
  rewrite (ClassMap_clear_spec _ (cleared_array_ok self Hok)).
  rewrite all_referents_cleared. reflexivity.
Qed.

(** X15.  No two names of a dict share an index: on the built table the
    lookups of two different keys write different indices, both below
    [member_count]. *)
Theorem distinct_names_distinct_indices
    (kvs : list (PyStringObject * Member)) (fuel : nat) nm1 nm2 :
  NoDup kvs.*1 ->
  Z.of_nat (length kvs) < 2 ^ 30 ->
  (probe_budget (planned_capacity (u32 (Z.of_nat (length kvs)))) <= fuel)%nat ->
  nm1 ∈ kvs.*1 -> nm2 ∈ kvs.*1 -> nm1 <> nm2 ->
  exists map mb1 mb2 i1 i2,
    ClassMap_new pystr_hash fuel true true (Some (ArgDict (typed_items kvs)))
    = Done (Returned map, increfs kvs)
    /\ (forall mo io,
          ClassMap_LookupMember pystr_hash fuel map nm1 mo io
          = Done (Some mb1, i1))
    /\ (forall mo io,
          ClassMap_LookupMember pystr_hash fuel map nm2 mo io
          = Done (Some mb2, i2))
    /\ i1 <> i2
    /\ 0 <= i1 < member_count map /\ 0 <= i2 < member_count map.
Proof.
  intros Hnd Hn Hf H1 H2 Hne.
  destruct (ClassMap_new_typed pystr_hash fuel kvs Hn Hf)
    as (k & map0 & _ & _ & _ & _ & Hnew0 & _ & Hc & _).
  destruct (built_lookup pystr_hash kvs fuel fuel Hnd Hn Hf Hf)
    as (map & Hnew & Hfound & _).
  assert (map0 = map) as -> by congruence.
  apply list_elem_of_fmap in H1 as ([n1 mb1] & Heq1 & Hin1).
  apply list_elem_of_fmap in H2 as ([n2 mb2] & Heq2 & Hin2).
  cbn in Heq1, Heq2. subst n1 n2.
  apply list_elem_of_lookup in Hin1 as [i1 Hi1].
  apply list_elem_of_lookup in Hin2 as [i2 Hi2].
  exists map, mb1, mb2, (Z.of_nat i1), (Z.of_nat i2).
  split; [exact Hnew|].
  split; [intros mo io; exact (Hfound i1 nm1 mb1 mo io Hi1)|].
  split; [intros mo io; exact (Hfound i2 nm2 mb2 mo io Hi2)|].
  split.
  - intros Heq. apply Nat2Z.inj in Heq. subst i2. congruence.
  - rewrite Hc. apply lookup_lt_Some in Hi1, Hi2. lia.
Qed.

End TeardownFacts.

(** * The further properties on examples *)

Lemma example_size_ok (fuel : nat) (args : option PyArg) :
  args = Some (ArgDict example_bad_items) -> (16 <= fuel)%nat ->
  forall items,
    args = Some (ArgDict items) ->
    Z.of_nat (length items) < 2 ^ 30
    /\ (probe_budget (planned_capacity (u32 (Z.of_nat (length items))))
        <= fuel)%nat.
Proof.
  intros -> Hf items Heq. injection Heq as <-.
  split; [reflexivity|]. vm_compute. lia.
Defined.

Lemma ClassMap_new_accepts_exactly_witness :
  exists res log,
    ClassMap_new example_hash 16 true true (Some (ArgDict example_bad_items))
    = Done (res, log)
    /\ ((exists map, res = Returned map)
        <-> true = true /\ true = true
            /\ exists kvs,
                 Some (ArgDict example_bad_items)
                 = Some (ArgDict (typed_items kvs))).
Proof.
  apply (ClassMap_new_accepts_exactly example_hash 16 true true
           (Some (ArgDict example_bad_items))).
  apply (example_size_ok 16 _ eq_refl). lia.
Defined.

Lemma ClassMap_new_failure_leaves_no_reference_witness :
  released
    (increfs example_kvs
     ++ [Decref (PyStr "bb"%string); Decref (PyMember (MemberAt 2));
         Decref (PyStr "a"%string); Decref (PyMember (MemberAt 1));
         Decref (PyStr "c"%string); Decref (PyMember (MemberAt 3))])
  ≡ₚ taken
       (increfs example_kvs
        ++ [Decref (PyStr "bb"%string); Decref (PyMember (MemberAt 2));
            Decref (PyStr "a"%string); Decref (PyMember (MemberAt 1));
            Decref (PyStr "c"%string); Decref (PyMember (MemberAt 3))]).
Proof.
  apply (ClassMap_new_failure_leaves_no_reference example_hash 16 true true
           (Some (ArgDict example_bad_items))
           (py_expected_type_fail (PyOther "int"%string 5) "str")).
  - apply (example_size_ok 16 _ eq_refl). lia.
  - vm_compute. reflexivity.
Defined.

Lemma dealloc_releases_what_new_took_witness :
  exists map log dlog,
    ClassMap_new example_hash 12 true true
      (Some (ArgDict (typed_items example_kvs)))
    = Done (Returned map, log)
    /\ ClassMap_dealloc map = Done (tt, dlog)
    /\ taken log = objects_of example_kvs /\ released log = []
    /\ taken dlog = [] /\ released dlog ≡ₚ objects_of example_kvs.
Proof.
  apply (dealloc_releases_what_new_took example_hash example_kvs 12).
  - reflexivity.
  - vm_compute. lia.
Defined.

Lemma traverse_visits_what_new_stored_witness :
  exists map seen,
    ClassMap_new example_hash 12 true true
      (Some (ArgDict (typed_items example_kvs)))
    = Done (Returned map, increfs example_kvs)
    /\ ClassMap_traverse counting_visit map 0%nat
       = Done (0, visited counting_visit 0%nat seen, seen)
    /\ seen ≡ₚ objects_of example_kvs.
Proof.
  apply (traverse_visits_what_new_stored example_hash counting_visit 0%nat
           example_kvs 12).
  - reflexivity.
  - vm_compute. lia.
  - intros o s'. reflexivity.
Defined.

Lemma lookup_independent_of_order_witness :
  exists map map' r r',
    ClassMap_new example_hash 12 true true
      (Some (ArgDict (typed_items example_kvs)))
    = Done (Returned map, increfs example_kvs)
    /\ ClassMap_new example_hash 12 true true
         (Some (ArgDict (typed_items (rev example_kvs))))
       = Done (Returned map', increfs (rev example_kvs))
    /\ ClassMap_LookupMember example_hash 12 map "c"%string None 0 = Done r
    /\ ClassMap_LookupMember example_hash 12 map' "c"%string None 0 = Done r'
    /\ fst r = fst r'.
Proof.
  apply (lookup_independent_of_order example_hash example_kvs
           (rev example_kvs) 12 "c"%string None 0).
  - apply Permutation_rev.
  - exact example_kvs_NoDup.
  - reflexivity.
  - vm_compute. lia.
Defined.

Lemma insert_member_keeps_lookups_witness :
  ClassMap_LookupMember example_hash 12
    (store example_table 0 "a"%string (MemberAt 9)) "a"%string None 77
  = Done (Some (MemberAt 1), 0).
Proof.
  apply (insert_member_keeps_lookups example_hash 12 example_table
           "a"%string (Some (MemberAt 1), 0) "a"%string (MemberAt 9)
           (store example_table 0 "a"%string (MemberAt 9))
           [Incref (PyStr "a"%string); Incref (PyMember (MemberAt 9))]).
  - intros mo io. reflexivity.
  - reflexivity.
Defined.

Lemma lookup_result_is_a_dict_entry_witness :
  exists map r,
    ClassMap_new example_hash 12 true true
      (Some (ArgDict (typed_items example_kvs)))
    = Done (Returned map, increfs example_kvs)
    /\ ClassMap_LookupMember example_hash 12 map "bb"%string None 0 = Done r
    /\ (r = (None, 0)
        \/ exists (j : nat) mb,
             example_kvs !! j = Some ("bb"%string, mb)
             /\ r = (Some mb, Z.of_nat j)
             /\ 0 <= Z.of_nat j < member_count map).
Proof.
  apply (lookup_result_is_a_dict_entry example_hash example_kvs 12 12
           "bb"%string None 0).
  - reflexivity.
  - vm_compute. lia.
  - vm_compute. lia.
Defined.

Lemma lookup_after_clear_witness :
  exists map' log,
    ClassMap_clear example_table = Done (map', log)
    /\ ClassMap_LookupMember example_hash 1 map' "a"%string None 0
       = Done (None, 0).
Proof.
  apply (lookup_after_clear example_hash 2 example_table 1 "a"%string None 0).
  - exact example_table_pow2.
  - lia.
Defined.

Lemma planned_capacity_bounds_witness :
  4 <= planned_capacity 5 <= 2 ^ 31
  /\ 4 * Z.max 5 3 <= 3 * planned_capacity 5
  /\ 3 * planned_capacity 5 < 8 * Z.max 5 3
  /\ planned_capacity 5 <= planned_capacity 100.
Proof.
  apply (planned_capacity_bounds 5 100).
  - lia.
  - reflexivity.
Defined.

Lemma sizeof_built_table_witness :
  exists map map' log,
    ClassMap_new example_hash 12 true true
      (Some (ArgDict (typed_items example_kvs)))
    = Done (Returned map, increfs example_kvs)
    /\ ClassMap_sizeof 40 24 map
       = 40 + 24 * planned_capacity (Z.of_nat (length example_kvs))
    /\ 40 + 24 * 4 <= ClassMap_sizeof 40 24 map
    /\ 3 * (ClassMap_sizeof 40 24 map - 40)
       <= 24 * (8 * Z.max (Z.of_nat (length example_kvs)) 3)
    /\ ClassMap_clear map = Done (map', log)
    /\ ClassMap_sizeof 40 24 map' = ClassMap_sizeof 40 24 map.
Proof.
  apply (sizeof_built_table example_hash 40 24 example_kvs 12).
  - lia.
  - reflexivity.
  - vm_compute. lia.
Defined.

Lemma insert_member_frame_witness :
  exists slot : nat,
    vacant (entries example_table) slot
    /\ entries (store example_table 0 "d"%string (MemberAt 4)) !! slot
       = Some {| name := Some "d"%string; member := Some (MemberAt 4);
                 index := member_count example_table |}
    /\ (forall j : nat, j <> slot ->
          entries (store example_table 0 "d"%string (MemberAt 4)) !! j
          = entries example_table !! j)
    /\ length (entries (store example_table 0 "d"%string (MemberAt 4)))
       = length (entries example_table)
    /\ allocated (store example_table 0 "d"%string (MemberAt 4))
       = allocated example_table
    /\ member_count (store example_table 0 "d"%string (MemberAt 4))
       = add (member_count example_table) 1
    /\ [Incref (PyStr "d"%string); Incref (PyMember (MemberAt 4))]
       = [Incref (PyStr "d"%string); Incref (PyMember (MemberAt 4))]
    /\ (forall nm',
          stored (entries (store example_table 0 "d"%string (MemberAt 4))) nm'
          <-> nm' = "d"%string \/ stored (entries example_table) nm').
Proof.
  apply (insert_member_frame example_hash 12 example_table "d"%string
           (MemberAt 4)).
  reflexivity.
Defined.

Lemma example_full_table_pow2 : pow2_table 2 example_full_table.
Proof. split; [lia|]. split; reflexivity. Defined.

Lemma example_full_table_full e :
  e ∈ entries example_full_table -> is_Some (name e).
Proof.
  cbn [example_full_table entries]. rewrite !elem_of_cons, elem_of_nil.
  intros [->|[->|[->|[->|[]]]]]; cbn; eauto.
Defined.

Lemma full_table_never_returns_witness :
  insert_member example_hash 100 example_full_table "e"%string (MemberAt 5)
  = Diverge
  /\ (~ stored (entries example_full_table) "e"%string ->
      ClassMap_LookupMember example_hash 100 example_full_table "e"%string
        None 0
      = Diverge).
Proof.
  apply (full_table_never_returns example_hash 2 example_full_table 100
           "e"%string (MemberAt 5) None 0).
  - exact example_full_table_pow2.
  - exact example_full_table_full.
Defined.

Lemma example_table_fresh_d : ~ stored (entries example_table) "d"%string.
Proof.
  intros (e & He & Hn). cbn [example_table entries] in He.
  rewrite !elem_of_cons, elem_of_nil in He.
  destruct He as [->|[->|[->|[->|[]]]]]; discriminate.
Defined.

Lemma insert_then_lookup_witness :
  exists map',
    insert_member example_hash 12 example_table "d"%string (MemberAt 4)
    = Done (map', [Incref (PyStr "d"%string); Incref (PyMember (MemberAt 4))])
    /\ pow2_table 2 map'
    /\ forall mo io,
         ClassMap_LookupMember example_hash 12 map' "d"%string mo io
         = Done (Some (MemberAt 4), member_count example_table).
Proof.
  apply (insert_then_lookup example_hash 2 example_table 12 "d"%string
           (MemberAt 4)).
  - exact example_table_pow2.
  - exact example_table_vacant.
  - vm_compute. lia.
  - exact example_table_fresh_d.
Defined.

Lemma clear_then_dealloc_releases_once_witness :
  exists self' log,
    ClassMap_clear example_table = Done (self', log)
    /\ released log = all_referents (entries example_table)
    /\ taken log = []
    /\ ClassMap_dealloc self' = Done (tt, []).
Proof.
  apply (clear_then_dealloc_releases_once example_table).
  exact example_table_array_ok.
Defined.

Lemma distinct_names_distinct_indices_witness :
  exists map mb1 mb2 i1 i2,
    ClassMap_new example_hash 12 true true
      (Some (ArgDict (typed_items example_kvs)))
    = Done (Returned map, increfs example_kvs)
    /\ (forall mo io,
          ClassMap_LookupMember example_hash 12 map "a"%string mo io
          = Done (Some mb1, i1))
    /\ (forall mo io,
          ClassMap_LookupMember example_hash 12 map "c"%string mo io
          = Done (Some mb2, i2))
    /\ i1 <> i2
    /\ 0 <= i1 < member_count map /\ 0 <= i2 < member_count map.
Proof.
  apply (distinct_names_distinct_indices example_hash example_kvs 12
           "a"%string "c"%string).
  - exact example_kvs_NoDup.
  - reflexivity.
  - vm_compute. lia.
  - cbn. rewrite !elem_of_cons. auto.
  - cbn. rewrite !elem_of_cons. auto.
  - discriminate.
Defined.
